(** * Smart-Pointer: the reference-counted [Pointer<T, size>] of gc_pointer.h

    A shallow embedding of [src/gc_details.h] and [src/gc_pointer.h].

    - A [T*] is an address, a [Z] counted in elements of [T] (C++ pointer
      arithmetic on a [T*] counts elements); [nullptr] is [0].
    - [unsigned] is a [Z] reduced modulo [2^32] after every operation; [int]
      is a [Z] in [-2^31, 2^31).
    - The static members [refContainer] and [first], the [atexit] registrations
      and the effect of [delete] / [delete[]] form the record [Statics], which
      every member function threads through.
    - An iterator into [refContainer] is a position; [refContainer.end()] is
      [None].  Going through [end()] with [->] has no defined behaviour: the
      member functions that do so return [None].
    - The [Pointer] objects of a program live in a store, a finite map from
      object locations to the three data members. *)

From Equations Require Import Equations.
From stdpp Require Import base decidable option list gmap.
From Stdlib Require Import ZArith Lia.

Local Open Scope Z_scope.

(** ** Machine integers *)

Definition UINT_MOD : Z := 2 ^ 32.
Definition INT_MAX : Z := 2 ^ 31 - 1.
Definition INT_MIN : Z := - 2 ^ 31.

(** Conversion to [unsigned]. *)
Definition to_unsigned (z : Z) : Z := z mod UINT_MOD.

Definition is_unsigned (z : Z) : Prop := 0 <= z < UINT_MOD.

(** Conversion of an [unsigned] to [int]. *)
Definition to_int (z : Z) : Z :=
  let u := z mod UINT_MOD in if u <? 2 ^ 31 then u else u - UINT_MOD.

Definition is_int (z : Z) : Prop := INT_MIN <= z <= INT_MAX.

Definition nullptr : Z := 0.

(** ** gc_details.h *)

Record PtrDetails : Type := mkPtrDetails {
  refCount : Z;      (* unsigned: current reference count *)
  memPtr : Z;        (* T*: pointer to allocated memory *)
  isArray : bool;    (* true if pointing to array *)
  arraySize : Z      (* unsigned: size of array *)
}.

(** [PtrDetails(T* mPtr, unsigned arrSize = 0)].  The constructor never
    assigns [refCount]; it increments whatever the storage held, which is
    the argument [junk]. *)
Definition PtrDetails_ctor (junk : Z) (mPtr : Z) (arrSize : Z) : PtrDetails :=
  {| memPtr := mPtr;
     arraySize := arrSize;
     isArray := bool_decide (arrSize = 0);
     refCount := to_unsigned (junk + 1) |}.

(** [operator==] on [PtrDetails]: same allocated memory. *)
Definition PtrDetails_eq (ob1 ob2 : PtrDetails) : Prop := memPtr ob1 = memPtr ob2.

#[global] Instance PtrDetails_eq_dec ob1 ob2 : Decision (PtrDetails_eq ob1 ob2).
Proof. unfold PtrDetails_eq. apply _. Defined.

Definition set_refCount (n : Z) (d : PtrDetails) : PtrDetails :=
  {| refCount := n; memPtr := memPtr d; isArray := isArray d; arraySize := arraySize d |}.

(** [p->refCount++] and [p->refCount--] on an [unsigned]. *)
Definition incr (d : PtrDetails) : PtrDetails := set_refCount (to_unsigned (refCount d + 1)) d.
Definition decr (d : PtrDetails) : PtrDetails := set_refCount (to_unsigned (refCount d - 1)) d.

(** ** gc_pointer.h: data *)

(** The data members of a [Pointer<T, size>] object. *)
Record Pointer : Type := mkPointer {
  addr : Z;              (* T* *)
  ptr_isArray : bool;
  ptr_arraySize : Z      (* unsigned *)
}.

(** What [delete p->memPtr] ([rel_array = false]) or [delete [] p->memPtr]
    ([rel_array = true]) was applied to. *)
Record Release : Type := mkRelease {
  rel_addr : Z;
  rel_array : bool
}.

(** The state shared by all [Pointer<T, size>] of one instantiation. *)
Record Statics : Type := mkStatics {
  refContainer : list PtrDetails;   (* static std::list<PtrDetails<T>> *)
  first : bool;                     (* static bool first *)
  exit_hooks : nat;                 (* how often atexit(shutdown) was called *)
  released : list Release           (* the deletes performed so far, oldest first *)
}.

Definition set_refContainer (l : list PtrDetails) (s : Statics) : Statics :=
  {| refContainer := l; first := first s; exit_hooks := exit_hooks s; released := released s |}.

(** The statics at program start: [refContainer] empty, [first = true]. *)
Definition startup : Statics :=
  {| refContainer := []; first := true; exit_hooks := 0%nat; released := [] |}.

(** [refContainerSize()]: [refContainer.size()] returned as an [int]. *)
Definition refContainerSize (s : Statics) : Z := to_int (Z.of_nat (length (refContainer s))).

(** ** gc_pointer.h: member functions *)

(** [findPtrInfo(ptr)]: the position of the first entry whose [memPtr] is
    [ptr]; [None] is [refContainer.end()]. *)
Definition findPtrInfo (ptr : Z) (s : Statics) : option nat :=
  fst <$> list_find (λ d, memPtr d = ptr) (refContainer s).

(** [std::list::remove(value)]: erases every element that compares equal
    to [value]. *)
Definition list_remove (value : PtrDetails) (l : list PtrDetails) : list PtrDetails :=
  filter (λ d, ¬ PtrDetails_eq d value) l.

(** The [delete] of [collect()]: nothing for a null [memPtr], else
    [delete[]] or [delete] by the entry's [isArray]. *)
Definition release (p : PtrDetails) (log : list Release) : list Release :=
  if decide (memPtr p = nullptr) then log
  else log ++ [ {| rel_addr := memPtr p; rel_array := isArray p |} ].

(** The inner [for] loop of [collect()] stops at the first entry that does
    not satisfy [p->refCount > 0]. *)
Definition first_unreferenced (l : list PtrDetails) : option PtrDetails :=
  snd <$> list_find (λ d, ¬ (refCount d > 0)) l.

(** Keeps the equation [a = b] when matching on the value of [a]. *)
Definition inspect {A : Type} (a : A) : {b : A | a = b} := exist _ a eq_refl.

(** The statics after the [remove] and the [delete] for the entry [p]. *)
Definition collect_next (p : PtrDetails) (s : Statics) : Statics :=
  {| refContainer := list_remove p (refContainer s);
     first := first s;
     exit_hooks := exit_hooks s;
     released := release p (released s) |}.

(** [collect()].  One round of the [do ... while] loop: the [for] loop
    either runs to [end()] (nothing has count zero, the [while] test fails
    and [memFreed] is returned) or breaks at an entry [p], after
    [refContainer.remove] of the entry and the [delete]; then [p != end()]
    and the loop goes round again.  The fields read through [p] after the
    [remove] are the ones the entry held when it was found.  Every round
    shortens the list, which is why the loop ends. *)
Equations? collect_loop (memFreed : bool) (s : Statics) : bool * Statics
  by wf (length (refContainer s)) lt :=
  collect_loop memFreed s with inspect (first_unreferenced (refContainer s)) := {
    | exist _ None _ => (memFreed, s)
    | exist _ (Some p) Hp => collect_loop true (collect_next p s)
  }.
Proof.
  unfold first_unreferenced in Hp.
  destruct (list_find _ (refContainer s)) as [[i q]|] eqn:Hfind; [|done].
  injection Hp as ->. apply list_find_Some in Hfind as (Hi & _ & _).
  simpl. unfold list_remove.
  apply (length_filter_lt _ _ p); [by eapply list_elem_of_lookup_2|].
  unfold PtrDetails_eq. tauto.
Qed.

Definition collect (s : Statics) : bool * Statics := collect_loop false s.

(** Writing through the iterator [p]: [None] when [p] is [end()]. *)
Definition through (p : option nat) (f : PtrDetails → PtrDetails) (s : Statics) : option Statics :=
  i ← p;
  _ ← refContainer s !! i;
  Some (set_refContainer (alter f i (refContainer s)) s).

Definition set_addr (t : Z) (this : Pointer) : Pointer :=
  {| addr := t; ptr_isArray := ptr_isArray this; ptr_arraySize := ptr_arraySize this |}.

(** Modelled from the spec: [Iter<T>] of gc_iterator.h, which is not among the
    sources: a cursor [current] and the bounds [begin, end) of the range it
    walks, built by [Iter<T>(current, begin, end)]. *)
Record Iter : Type := mkIter {
  current : Z;
  range_begin : Z;
  range_end : Z
}.

(** Modelled from the spec: the distance between two iterators of one range,
    the number of forward steps that take [from] to [to]. *)
Definition Iter_distance (from to : Iter) : Z := current to - current from.


Section PointerT.
(** The template argument [int size] of [Pointer<T, size>]. *)
Variable size : Z.

(** [Pointer(T* t)].  The local [ptrDetails(t)] has its [refCount],
    [isArray] and [arraySize] overwritten before it is pushed, so what its
    constructor left in them (the [junk]) never shows. *)
Definition Pointer_ctor_with (junk : Z) (t : Z) (s : Statics) : Pointer * Statics :=
  let hooks := if first s then S (exit_hooks s) else exit_hooks s in
  let arraySize' := to_unsigned size in
  let isArray' := bool_decide (arraySize' > 0) in
  let ptrDetails := PtrDetails_ctor junk t 0 in
  let ptrDetails :=
    {| refCount := 1; memPtr := memPtr ptrDetails;
       isArray := isArray'; arraySize := arraySize' |} in
  ({| addr := t; ptr_isArray := isArray'; ptr_arraySize := arraySize' |},
   {| refContainer := refContainer s ++ [ptrDetails];
      first := false;
      exit_hooks := hooks;
      released := released s |}).

Definition Pointer_ctor (t : Z) (s : Statics) : Pointer * Statics :=
  Pointer_ctor_with 0 t s.

(** [Pointer(const Pointer &obj)]. *)
Definition Pointer_copy (obj : Pointer) (s : Statics) : option (Pointer * Statics) :=
  s' ← through (findPtrInfo (addr obj) s) incr s;
  Some ({| addr := addr obj;
           ptr_arraySize := ptr_arraySize obj;
           ptr_isArray := ptr_isArray obj |}, s').

(** The first two statements of [~Pointer()]:
    [p = findPtrInfo(addr); if (p->refCount) p->refCount--;]. *)
Definition Pointer_dtor_unref (this : Pointer) (s : Statics) : option Statics :=
  through (findPtrInfo (addr this) s)
          (λ d, if decide (refCount d ≠ 0) then decr d else d) s.

(** [~Pointer()]: the above, then [collect()]. *)
Definition Pointer_dtor (this : Pointer) (s : Statics) : option Statics :=
  s' ← Pointer_dtor_unref this s;
  Some (snd (collect s')).

(** [Pointer()]: its body is the expression statement [Pointer(nullptr);],
    which constructs a temporary and destroys it at the semicolon.  The
    object under construction is not written: its members keep what the
    storage held, [uninit]. *)
Definition Pointer_default (uninit : Pointer) (s : Statics) : option (Pointer * Statics) :=
  let '(temporary, s1) := Pointer_ctor nullptr s in
  s2 ← Pointer_dtor temporary s1;
  Some (uninit, s2).

(** [T* operator=(T* t)].  The pushed [PtrDetails<T>(t, size)] is a
    temporary whose [refCount] is whatever its storage held ([junk]),
    incremented. *)
Definition assign_raw (junk : Z) (this : Pointer) (t : Z) (s : Statics)
  : option (Z * Pointer * Statics) :=
  s1 ← through (findPtrInfo (addr this) s) decr s;
  let s2 :=
    match findPtrInfo t s1 with
    | Some i => set_refContainer (alter incr i (refContainer s1)) s1
    | None =>
        set_refContainer
          (refContainer s1 ++ [PtrDetails_ctor junk t (to_unsigned size)]) s1
    end in
  Some (t, set_addr t this, s2).

(** [Pointer &operator=(Pointer &rv)], on the members of [*this] and of
    [rv]; which object the returned reference names is [op_assign]'s
    business. *)
Definition assign_ptr (this rv : Pointer) (s : Statics) : option (Pointer * Statics) :=
  s1 ← through (findPtrInfo (addr this) s) decr s;
  s2 ← through (findPtrInfo (addr rv) s1) incr s1;
  Some (set_addr (addr rv) this, s2).

(** [begin()] and [end()]. *)
Definition Pointer_begin (this : Pointer) : Iter :=
  let _size := if ptr_isArray this then to_int (ptr_arraySize this) else 0 in
  {| current := addr this; range_begin := addr this; range_end := addr this + _size |}.

Definition Pointer_end (this : Pointer) : Iter :=
  let _size := if ptr_isArray this then to_int (ptr_arraySize this) else 0 in
  {| current := addr this + _size; range_begin := addr this;
     range_end := addr this + _size |}.

(** [operator*()] and [operator[](int i)] return references, [operator->()]
    and [operator T*()] return a pointer: each is the address of the object
    it names.  None of them looks at the registry or checks a bound. *)
Definition Pointer_deref (this : Pointer) : Z := addr this.
Definition Pointer_arrow (this : Pointer) : Z := addr this.
Definition Pointer_index (this : Pointer) (i : Z) : Z := addr this + i.
Definition Pointer_to_raw (this : Pointer) : Z := addr this.

(** The loop of [shutdown()]: every [refCount] becomes zero. *)
Definition zero_counts (s : Statics) : Statics :=
  set_refContainer (set_refCount 0 <$> refContainer s) s.

(** [shutdown()]. *)
Definition shutdown (s : Statics) : Statics :=
  if decide (refContainerSize s = 0) then s
  else snd (collect (zero_counts s)).

(** ** Programs: [Pointer] objects in a store *)

Record World : Type := mkWorld {
  statics : Statics;
  objects : gmap nat Pointer    (* the live Pointer objects, by location *)
}.

Definition boot : World := {| statics := startup; objects := ∅ |}.

(** [l = r] for two [Pointer] objects: the members of both are read from
    the store ([l] and [r] may be the same object), [*this] is written
    back, and the result is the reference the operator returns, the
    location of the object it names. *)
Definition op_assign (l r : nat) (w : World) : option (nat * World) :=
  this ← objects w !! l;
  rv ← objects w !! r;
  '(this', s') ← assign_ptr this rv (statics w);
  Some (r, {| statics := s'; objects := <[l := this']> (objects w) |}).

(** [l = t] for a raw [T* t]. *)
Definition op_assign_raw (junk : Z) (l : nat) (t : Z) (w : World) : option (Z * World) :=
  this ← objects w !! l;
  '(ret, this', s') ← assign_raw junk this t (statics w);
  Some (ret, {| statics := s'; objects := <[l := this']> (objects w) |}).

(** What a client does with handles.  Constructing at a location that
    holds a live object, or using a location that holds none, is not a
    program: such steps give [None], like the steps that go through
    [end()]. *)
Inductive op : Type :=
| New (l : nat) (t : Z)                    (* Pointer<T,size> l(t); *)
| NewDefault (l : nat) (uninit : Pointer)  (* Pointer<T,size> l; *)
| NewCopy (l src : nat)                    (* Pointer<T,size> l(src); *)
| Delete (l : nat)                         (* l goes out of scope *)
| AssignRaw (junk : Z) (l : nat) (t : Z)   (* l = t; *)
| Assign (l r : nat)                       (* l = r; *)
| Collect                                  (* Pointer<T,size>::collect(); *)
| Shutdown.                                (* Pointer<T,size>::shutdown(); *)

Definition place (l : nat) (r : option (Pointer * Statics)) (w : World) : option World :=
  match objects w !! l with
  | Some _ => None
  | None =>
      '(this, s') ← r;
      Some {| statics := s'; objects := <[l := this]> (objects w) |}
  end.

Definition step (o : op) (w : World) : option World :=
  match o with
  | New l t => place l (Some (Pointer_ctor t (statics w))) w
  | NewDefault l uninit => place l (Pointer_default uninit (statics w)) w
  | NewCopy l src =>
      obj ← objects w !! src;
      place l (Pointer_copy obj (statics w)) w
  | Delete l =>
      this ← objects w !! l;
      s' ← Pointer_dtor this (statics w);
      Some {| statics := s'; objects := delete l (objects w) |}
  | AssignRaw junk l t => snd <$> op_assign_raw junk l t w
  | Assign l r => snd <$> op_assign l r w
  | Collect => Some {| statics := snd (collect (statics w)); objects := objects w |}
  | Shutdown => Some {| statics := shutdown (statics w); objects := objects w |}
  end.

Fixpoint run (ops : list op) (w : World) : option World :=
  match ops with
  | [] => Some w
  | o :: ops' => w' ← step o w; run ops' w'
  end.

(** The raw address a step takes from the client, if it takes one. *)
Definition hands_over (o : op) : option Z :=
  match o with
  | New _ t | AssignRaw _ _ t => Some t
  | _ => None
  end.

(** The step hands over an address that has been released already. *)
Definition dangling (o : op) (s : Statics) : bool :=
  match hands_over o with
  | Some t => bool_decide (t ∈ rel_addr <$> released s)
  | None => false
  end.

(** No step of the run hands over an address released before it. *)
Fixpoint careful (ops : list op) (w : World) : bool :=
  match ops with
  | [] => true
  | o :: ops' =>
      negb (dangling o (statics w)) &&
      match step o w with
      | Some w' => careful ops' w'
      | None => true
      end
  end.

(** The run constructs, copies and destroys handles only, and constructs
    from a raw address only when that address has no entry. *)
Definition registers_anew (o : op) (s : Statics) : bool :=
  match o with
  | New _ t => bool_decide (t ∉ memPtr <$> refContainer s)
  | NewCopy _ _ | Delete _ => true
  | _ => false
  end.

Fixpoint disciplined (ops : list op) (w : World) : bool :=
  match ops with
  | [] => true
  | o :: ops' =>
      registers_anew o (statics w) &&
      match step o w with
      | Some w' => disciplined ops' w'
      | None => true
      end
  end.

(** The steps whose member function calls [collect()], itself or through
    the destructor or [shutdown()]. *)
Definition calls_collect (o : op) : bool :=
  match o with
  | Delete _ | NewDefault _ _ | Collect | Shutdown => true
  | New _ _ | NewCopy _ _ | AssignRaw _ _ _ | Assign _ _ => false
  end.

(** The steps that run [Pointer(T* t)], for the object or for a temporary. *)
Definition constructs (o : op) : bool :=
  match o with
  | New _ _ | NewDefault _ _ => true
  | _ => false
  end.

(** The steps that assign a raw address. *)
Definition assigns_raw (o : op) : bool :=
  match o with
  | AssignRaw _ _ _ => true
  | _ => false
  end.

(** The number of live [Pointer] objects whose [addr] is [a]. *)
Definition live_handles (a : Z) (w : World) : nat :=
  base.size (filter (λ lp, addr lp.2 = a) (objects w)).

(** The reference count the registry holds for [a]: the [refCount] of the
    entry [findPtrInfo(a)] finds. *)
Definition tracked_count (a : Z) (s : Statics) : option Z :=
  i ← findPtrInfo a s;
  refCount <$> refContainer s !! i.

End PointerT.

(** ** What the properties speak of *)

(** The addresses registered, in the order of the entries. *)
Definition addresses (s : Statics) : list Z := memPtr <$> refContainer s.

(** The addresses released so far. *)
Definition released_addresses (s : Statics) : list Z := rel_addr <$> released s.

(** The addresses of the entries that [collect()] stops at: those whose
    count is not positive. *)
Definition unreferenced_addresses (s : Statics) : list Z :=
  memPtr <$> filter (λ d, ¬ (refCount d > 0)) (refContainer s).

(** The entries whose address is not one of those. *)
Definition survivors (s : Statics) : list PtrDetails :=
  filter (λ d, memPtr d ∉ unreferenced_addresses s) (refContainer s).

(** Every entry and every release has the form the constructor gives an
    instantiation with the template argument [N]. *)
Definition shaped (N : Z) (s : Statics) : Prop :=
  Forall (λ d, isArray d = bool_decide (to_unsigned N > 0) ∧ arraySize d = to_unsigned N)
         (refContainer s) ∧
  Forall (λ r, rel_array r = bool_decide (to_unsigned N > 0)) (released s).

(** A write through an iterator that leaves [isArray] and [arraySize]. *)
Definition keeps_shape (f : PtrDetails → PtrDetails) : Prop :=
  ∀ d, isArray (f d) = isArray d ∧ arraySize (f d) = arraySize d.

(** Every count in the registry is a value of type [unsigned]. *)
Definition unsigned_counts (s : Statics) : Prop :=
  Forall (λ d, is_unsigned (refCount d)) (refContainer s).

(** The number of objects of a store that hold the address [a]. *)
Definition holders (a : Z) (m : gmap nat Pointer) : nat :=
  base.size (filter (λ lp : nat * Pointer, addr lp.2 = a) m).

(** The invariant of the counts: one entry per address, each entry counts
    the live handles on its address and there is at least one, and every
    live handle's address is registered. *)
Record counted (w : World) : Prop := mkCounted {
  counted_nodup : NoDup (addresses (statics w));
  counted_entries :
    ∀ d, d ∈ refContainer (statics w) →
         refCount d = Z.of_nat (live_handles (memPtr d) w) ∧ 0 < refCount d;
  counted_objects :
    ∀ l h, objects w !! l = Some h → addr h ∈ addresses (statics w)
}.

(** The invariant of the release log: no address occurs twice in it, null
    does not occur, and no address that has an entry occurs. *)
Record safe (s : Statics) : Prop := mkSafe {
  safe_nodup : NoDup (released_addresses s);
  safe_null : nullptr ∉ released_addresses s;
  safe_entries : ∀ a, a ∈ addresses s → a ∉ released_addresses s
}.


(** * Properties *)

(** ** The collection loop *)

Lemma list_remove_elem_shorter p l :
  p ∈ l → (length (list_remove p l) < length l)%nat.
Proof.
  unfold list_remove. induction l as [|d l IH]; intros Hin.
  - by apply elem_of_nil in Hin.
  - rewrite filter_cons.
    pose proof (length_filter (λ d, ¬ PtrDetails_eq d p) l) as Hle.
    destruct (decide (¬ PtrDetails_eq d p)) as [Hne|_]; [|simpl; lia].
    apply elem_of_cons in Hin as [->|Hin]; [by destruct Hne|].
    specialize (IH Hin). simpl. lia.
Qed.

Lemma first_unreferenced_Some l p :
  first_unreferenced l = Some p → p ∈ l ∧ refCount p <= 0.
Proof.
  unfold first_unreferenced. intros H.
  destruct (list_find _ l) as [[i q]|] eqn:Hf; simplify_eq/=.
  apply list_find_Some in Hf as (Hi & Hq & _).
  split; [by eapply list_elem_of_lookup_2 | lia].
Qed.

Lemma list_remove_shorter p l :
  first_unreferenced l = Some p → (length (list_remove p l) < length l)%nat.
Proof. intros H. apply list_remove_elem_shorter. by apply first_unreferenced_Some. Qed.

Lemma collect_loop_step b s :
  collect_loop b s =
  match first_unreferenced (refContainer s) with
  | None => (b, s)
  | Some p => collect_loop true (collect_next p s)
  end.
Proof.
  funelim (collect_loop b s).
  - by rewrite Hp.
  - match goal with E : first_unreferenced _ = None |- _ => by rewrite E end.
Qed.

(** Induction along the rounds of the [do ... while] loop. *)
Lemma collect_loop_rounds (P : bool → Statics → bool * Statics → Prop) :
  (∀ b s, first_unreferenced (refContainer s) = None → P b s (b, s)) →
  (∀ b s p, first_unreferenced (refContainer s) = Some p →
            P true (collect_next p s) (collect_loop true (collect_next p s)) →
            P b s (collect_loop true (collect_next p s))) →
  ∀ b s, P b s (collect_loop b s).
Proof.
  intros Hstop Hround b s.
  remember (length (refContainer s)) as n eqn:Hn.
  revert b s Hn. induction (lt_wf n) as [n _ IH]. intros b s ->.
  rewrite collect_loop_step.
  destruct (first_unreferenced (refContainer s)) as [p|] eqn:Hp.
  - apply Hround; [done|].
    eapply IH; [|reflexivity]. simpl. by apply list_remove_shorter.
  - by apply Hstop.
Qed.

Lemma first_unreferenced_None l :
  first_unreferenced l = None ↔ Forall (λ d, refCount d > 0) l.
Proof.
  unfold first_unreferenced. rewrite fmap_None, list_find_None.
  apply Forall_iff. intros d. destruct (decide (refCount d > 0)); tauto.
Qed.

(** A round changes nothing but [refContainer] and the release log. *)
Lemma collect_loop_frame b s :
  first (snd (collect_loop b s)) = first s ∧
  exit_hooks (snd (collect_loop b s)) = exit_hooks s.
Proof.
  apply (collect_loop_rounds (λ b s r, first r.2 = first s ∧ exit_hooks r.2 = exit_hooks s));
    [done | by intros ? ? ? _ [-> ->]].
Qed.

(** What is left after [collect()] is a sublist of what was there. *)
Lemma collect_loop_sublist b s :
  sublist (refContainer (snd (collect_loop b s))) (refContainer s).
Proof.
  apply (collect_loop_rounds (λ b s r, sublist (refContainer r.2) (refContainer s))).
  - done.
  - intros _ s' p _ IH. etrans; [exact IH|]. apply sublist_filter.
Qed.

(** And every entry left has a positive count. *)
Lemma collect_loop_positive b s :
  Forall (λ d, refCount d > 0) (refContainer (snd (collect_loop b s))).
Proof.
  apply (collect_loop_rounds (λ b s r, Forall (λ d, refCount d > 0) (refContainer r.2))).
  - intros b' s' H. by apply first_unreferenced_None.
  - done.
Qed.

(** The flag returned tells whether some round removed an entry. *)
Lemma collect_loop_flag b s :
  fst (collect_loop b s) =
  match first_unreferenced (refContainer s) with Some _ => true | None => b end.
Proof.
  rewrite collect_loop_step.
  destruct (first_unreferenced (refContainer s)) as [p|]; [|done].
  generalize (collect_next p s). intros s'.
  apply (collect_loop_rounds (λ b _ r, b = true → r.1 = true)); auto.
Qed.

Lemma collect_nothing_to_do s :
  Forall (λ d, refCount d > 0) (refContainer s) → collect s = (false, s).
Proof.
  intros H. unfold collect. rewrite collect_loop_step.
  by apply first_unreferenced_None in H as ->.
Qed.

Lemma to_int_small z : 0 <= z <= INT_MAX → to_int z = z.
Proof.
  unfold to_int, INT_MAX, UINT_MOD. intros H.
  rewrite Z.mod_small by lia.
  destruct (z <? 2 ^ 31) eqn:E; [done|]. apply Z.ltb_ge in E. lia.
Qed.

Lemma refContainerSize_zero s :
  Z.of_nat (length (refContainer s)) <= INT_MAX →
  refContainerSize s = 0 → refContainer s = [].
Proof.
  unfold refContainerSize. intros Hlen Hz.
  rewrite to_int_small in Hz by lia.
  apply length_zero_iff_nil. lia.
Qed.

Lemma zero_counts_all_zero s :
  Forall (λ d, refCount d = 0) (refContainer (zero_counts s)).
Proof. simpl. apply Forall_fmap, Forall_true. done. Qed.

Lemma collect_clears_zero_counts s :
  Forall (λ d, refCount d = 0) (refContainer s) →
  refContainer (snd (collect s)) = [].
Proof.
  intros Hz. unfold collect.
  pose proof (collect_loop_sublist false s) as Hsub.
  pose proof (collect_loop_positive false s) as Hpos.
  destruct (refContainer (collect_loop false s).2) as [|d l] eqn:E; [done|].
  apply Forall_cons in Hpos as [Hd _].
  assert (d ∈ refContainer s) as Hin.
  { eapply elem_of_sublist; [|exact Hsub]. apply elem_of_cons. by left. }
  rewrite Forall_forall in Hz. specialize (Hz d Hin). lia.
Qed.

(** C8: when no entry of the registry has a reference count of zero,
    [collect()] returns [false] and leaves the statics as they are, and so
    does every further call: after any number [n] of calls the state is
    still the one before the first, and the next call returns [false]
    again.  [collect] is a total function: it has a result in every state. *)
Theorem collect_idempotent_without_zero (s : Statics) (n : nat) :
  unsigned_counts s →
  Forall (λ d, refCount d ≠ 0) (refContainer s) →
  collect s = (false, s) ∧
  Nat.iter n (λ s', snd (collect s')) s = s ∧
  collect (Nat.iter n (λ s', snd (collect s')) s) = (false, s).
Proof.
  intros Hrange Hnz.
  assert (collect s = (false, s)) as Hc.
  { apply collect_nothing_to_do.
    unfold unsigned_counts in Hrange.
    rewrite Forall_forall in Hrange, Hnz. apply Forall_forall. intros d Hd.
    specialize (Hrange d Hd). specialize (Hnz d Hd).
    unfold is_unsigned in Hrange. lia. }
  assert (Nat.iter n (λ s', snd (collect s')) s = s) as Hn.
  { induction n as [|n IH]; [done|]. simpl. by rewrite IH, Hc. }
  by rewrite Hn.
Qed.

Lemma collect_idempotent_without_zero_witness :
  let s := {| refContainer := [mkPtrDetails 2 5 false 0; mkPtrDetails 1 6 true 3];
              first := false; exit_hooks := 1; released := [] |} in
  collect s = (false, s) ∧
  Nat.iter 3 (λ s', snd (collect s')) s = s ∧
  collect (Nat.iter 3 (λ s', snd (collect s')) s) = (false, s).
Proof.
  apply (collect_idempotent_without_zero
           {| refContainer := [mkPtrDetails 2 5 false 0; mkPtrDetails 1 6 true 3];
              first := false; exit_hooks := 1; released := [] |} 3).
  - unfold unsigned_counts. simpl.
    do 2 (apply List.Forall_cons; [vm_compute; split; congruence|]). apply List.Forall_nil.
  - simpl.
    do 2 (apply List.Forall_cons; [vm_compute; congruence|]). apply List.Forall_nil.
Defined.



(** ** Iteration bounds *)

Lemma to_unsigned_int_roundtrip N : is_int N → to_int (to_unsigned N) = N.
Proof.
  unfold is_int, INT_MIN, INT_MAX, to_int, to_unsigned, UINT_MOD. intros H.
  rewrite Z.mod_mod by lia.
  destruct (decide (0 <= N)).
  - rewrite Z.mod_small by lia.
    destruct (N <? 2 ^ 31) eqn:E; [done|]. apply Z.ltb_ge in E. lia.
  - replace (N mod 2 ^ 32) with (N + 2 ^ 32).
    + destruct (N + 2 ^ 32 <? 2 ^ 31) eqn:E; [apply Z.ltb_lt in E|]; lia.
    + apply Z.mod_unique with (-1); lia.
Qed.




(** The same for a scalar handle, evaluated. *)
Example begin_end_scalar :
  let this := fst (Pointer_ctor 0 100 startup) in
  Pointer_begin this = Pointer_end this ∧ Iter_distance (Pointer_begin this) (Pointer_end this) = 0.
Proof. by vm_compute. Qed.

(** A copy has the bounds of its source. *)
Lemma Pointer_copy_bounds obj s c s' :
  Pointer_copy obj s = Some (c, s') →
  Pointer_begin c = Pointer_begin obj ∧ Pointer_end c = Pointer_end obj.
Proof.
  unfold Pointer_copy. intros H.
  destruct (through _ _ _); simplify_eq/=. by destruct obj.
Qed.

(** ** Assignment of a raw address *)

(** C4: a handle constructed over address [5] is assigned the address [6],
    which has no entry.  The entry pushed for [6] has [isArray = (N == 0)]
    and a reference count of one more than what the storage of the
    temporary held. *)
Theorem assign_raw_fresh_entry (N junk : Z) :
  let '(this, s) := Pointer_ctor N 5 startup in
  assign_raw N junk this 6 s =
  Some (6,
        {| addr := 6; ptr_isArray := bool_decide (to_unsigned N > 0);
           ptr_arraySize := to_unsigned N |},
        {| refContainer :=
             [ {| refCount := 0; memPtr := 5;
                  isArray := bool_decide (to_unsigned N > 0);
                  arraySize := to_unsigned N |};
               {| refCount := to_unsigned (junk + 1); memPtr := 6;
                  isArray := bool_decide (to_unsigned N = 0);
                  arraySize := to_unsigned N |} ];
           first := false; exit_hooks := 1; released := [] |}).
Proof. reflexivity. Qed.

Example assign_raw_scalar_marked_array :
  ∃ this s d, assign_raw 0 0 (fst (Pointer_ctor 0 5 startup)) 6 (snd (Pointer_ctor 0 5 startup))
              = Some (6, this, s) ∧
              refContainer s !! 1%nat = Some d ∧ memPtr d = 6 ∧
              refCount d = 1 ∧ isArray d = true ∧ arraySize d = 0.
Proof. eexists _, _, _. split; [reflexivity|]. by vm_compute. Qed.

Example assign_raw_array_marked_scalar :
  ∃ this s d, assign_raw 3 41 (fst (Pointer_ctor 3 5 startup)) 6 (snd (Pointer_ctor 3 5 startup))
              = Some (6, this, s) ∧
              refContainer s !! 1%nat = Some d ∧ memPtr d = 6 ∧
              refCount d = 42 ∧ isArray d = false ∧ arraySize d = 3.
Proof. eexists _, _, _. split; [reflexivity|]. by vm_compute. Qed.

(** ** Looking entries up and writing through the iterator *)

Lemma findPtrInfo_Some a s i :
  findPtrInfo a s = Some i ↔
  ∃ d, refContainer s !! i = Some d ∧ memPtr d = a ∧
       ∀ j e, refContainer s !! j = Some e → (j < i)%nat → memPtr e ≠ a.
Proof.
  unfold findPtrInfo. split.
  - intros H. destruct (list_find _ _) as [[i' d]|] eqn:E; [|done].
    injection H as <-. apply list_find_Some in E as (Hd & Ha & Hfirst). eauto.
  - intros (d & Hd & Ha & Hfirst).
    assert (list_find (λ d, memPtr d = a) (refContainer s) = Some (i, d)) as ->; [|done].
    apply list_find_Some. naive_solver.
Qed.

Lemma findPtrInfo_None a s : findPtrInfo a s = None ↔ a ∉ addresses s.
Proof.
  unfold findPtrInfo, addresses. rewrite fmap_None, list_find_None, Forall_forall.
  rewrite list_elem_of_fmap. split.
  - intros H (d & -> & Hd). by apply (H d).
  - intros H d Hd Ha. apply H. eauto.
Qed.

Lemma findPtrInfo_is_Some a s : is_Some (findPtrInfo a s) ↔ a ∈ addresses s.
Proof.
  rewrite <- not_eq_None_Some, findPtrInfo_None.
  destruct (decide (a ∈ addresses s)); tauto.
Qed.

(** [findPtrInfo] looks at the addresses only. *)
Lemma findPtrInfo_addresses a s s' :
  addresses s = addresses s' → findPtrInfo a s = findPtrInfo a s'.
Proof.
  unfold addresses. intros Heq.
  assert (∀ l, fst <$> list_find (λ d, memPtr d = a) l
               = fst <$> list_find (λ x, x = a) (memPtr <$> l)) as Hl.
  { intros l. rewrite list_find_fmap. by destruct (list_find _ l) as [[??]|]. }
  unfold findPtrInfo. by rewrite !Hl, Heq.
Qed.

Lemma addresses_alter f i s :
  (∀ d, memPtr (f d) = memPtr d) →
  addresses (set_refContainer (alter f i (refContainer s)) s) = addresses s.
Proof.
  intros Hf. unfold addresses. simpl.
  rewrite (list_fmap_alter memPtr f id) by (apply Forall_forall; intros; apply Hf).
  by rewrite list_alter_id.
Qed.

Lemma memPtr_incr d : memPtr (incr d) = memPtr d.
Proof. done. Qed.

Lemma memPtr_decr d : memPtr (decr d) = memPtr d.
Proof. done. Qed.

Lemma memPtr_unref d : memPtr (if decide (refCount d ≠ 0) then decr d else d) = memPtr d.
Proof. by case_decide. Qed.

Create HintDb registry discriminated.
#[local] Hint Resolve memPtr_incr memPtr_decr memPtr_unref : registry.

(** What a write through [findPtrInfo(a)] amounts to. *)
Lemma through_findPtrInfo a f s s' :
  through (findPtrInfo a s) f s = Some s' →
  ∃ i d, findPtrInfo a s = Some i ∧ refContainer s !! i = Some d ∧ memPtr d = a ∧
         s' = set_refContainer (alter f i (refContainer s)) s.
Proof.
  unfold through. intros H.
  destruct (findPtrInfo a s) as [i|] eqn:Hi; simplify_eq/=.
  destruct (refContainer s !! i) as [d|] eqn:Hd; simplify_eq/=.
  apply findPtrInfo_Some in Hi as (d' & Hd' & Ha & _). naive_solver.
Qed.

Lemma through_registered a f s :
  a ∈ addresses s → is_Some (through (findPtrInfo a s) f s).
Proof.
  intros [i Hi]%findPtrInfo_is_Some. unfold through. rewrite Hi. simpl.
  apply findPtrInfo_Some in Hi as (d & -> & _). by eexists.
Qed.

Lemma through_frame a f s s' :
  through (findPtrInfo a s) f s = Some s' →
  released s' = released s ∧ first s' = first s ∧ exit_hooks s' = exit_hooks s ∧
  length (refContainer s') = length (refContainer s).
Proof.
  intros (i & d & _ & _ & _ & ->)%through_findPtrInfo. simpl.
  by rewrite length_alter.
Qed.

Lemma through_addresses a f s s' :
  (∀ d, memPtr (f d) = memPtr d) →
  through (findPtrInfo a s) f s = Some s' → addresses s' = addresses s.
Proof.
  intros Hf (i & d & _ & _ & _ & ->)%through_findPtrInfo. by apply addresses_alter.
Qed.

(** The count read back at the address written through. *)
Lemma through_tracked_same a f s s' :
  (∀ d, memPtr (f d) = memPtr d) →
  through (findPtrInfo a s) f s = Some s' →
  ∃ d, d ∈ refContainer s ∧ memPtr d = a ∧
       tracked_count a s = Some (refCount d) ∧
       tracked_count a s' = Some (refCount (f d)).
Proof.
  intros Hf H. pose proof (through_addresses _ _ _ _ Hf H) as Ha.
  apply through_findPtrInfo in H as (i & d & Hi & Hd & Hda & ->).
  exists d. unfold tracked_count.
  rewrite (findPtrInfo_addresses a _ _ Ha), Hi. simpl.
  rewrite Hd, list_lookup_alter_eq, Hd.
  split_and!; try done. by eapply list_elem_of_lookup_2.
Qed.

(** The counts at the other addresses stay. *)
Lemma through_tracked_other a b f s s' :
  (∀ d, memPtr (f d) = memPtr d) → a ≠ b →
  through (findPtrInfo a s) f s = Some s' →
  tracked_count b s' = tracked_count b s.
Proof.
  intros Hf Hab H. pose proof (through_addresses _ _ _ _ Hf H) as Ha.
  apply through_findPtrInfo in H as (i & d & Hi & Hd & Hda & ->).
  unfold tracked_count. rewrite (findPtrInfo_addresses b _ _ Ha).
  destruct (findPtrInfo b s) as [j|] eqn:Hj; [|done]. simpl.
  apply findPtrInfo_Some in Hj as (e & He & Heb & _).
  rewrite list_lookup_alter_ne; [done|]. intros ->. congruence.
Qed.

(** Pushing an entry at the back does not change what is found in front. *)
Lemma tracked_count_push_back a d s :
  a ∈ addresses s →
  tracked_count a (set_refContainer (refContainer s ++ [d]) s) = tracked_count a s.
Proof.
  intros [i Hi]%findPtrInfo_is_Some. unfold tracked_count, findPtrInfo in *.
  destruct (list_find _ (refContainer s)) as [[i' e]|] eqn:E; [|done].
  cbn [set_refContainer refContainer].
  rewrite (list_find_app_l _ _ _ _ _ E). simpl.
  apply list_find_Some in E as (He & _).
  by rewrite (lookup_app_l_Some _ [d] _ _ He), He.
Qed.

(** ** What [collect()] releases *)

Lemma list_remove_elem d p l :
  d ∈ list_remove p l ↔ d ∈ l ∧ memPtr d ≠ memPtr p.
Proof. unfold list_remove, PtrDetails_eq. rewrite list_elem_of_filter. tauto. Qed.

Lemma release_log p log :
  release p log = log ++ (if decide (memPtr p = nullptr) then []
                          else [ {| rel_addr := memPtr p; rel_array := isArray p |} ]).
Proof. unfold release. case_decide; [by rewrite app_nil_r | done]. Qed.

(** The releases of one [collect()]: each is of a non-null address that had
    an entry with a count that is not positive, with the [delete] form its
    [isArray] asks for, and no address is released twice. *)
Lemma collect_loop_releases b s :
  ∃ new, released (snd (collect_loop b s)) = released s ++ new ∧
         NoDup (rel_addr <$> new) ∧
         ∀ r, r ∈ new →
              rel_addr r ≠ nullptr ∧
              ∃ p, p ∈ refContainer s ∧ memPtr p = rel_addr r ∧
                   refCount p <= 0 ∧ rel_array r = isArray p.
Proof.
  apply (collect_loop_rounds
    (λ _ s r, ∃ new, released r.2 = released s ++ new ∧
                     NoDup (rel_addr <$> new) ∧
                     ∀ r, r ∈ new →
                          rel_addr r ≠ nullptr ∧
                          ∃ p, p ∈ refContainer s ∧ memPtr p = rel_addr r ∧
                               refCount p <= 0 ∧ rel_array r = isArray p)).
  - intros b0 s' _. exists []. simpl. rewrite app_nil_r.
    split_and!; [done | constructor | by intros r ?%elem_of_nil].
  - intros _ s' p Hp (new & Hlog & Hnd & Hnew).
    apply first_unreferenced_Some in Hp as [Hin Hzero].
    assert (∀ r, r ∈ new → rel_addr r ≠ memPtr p) as Hfresh.
    { intros r (_ & q & Hq & <- & _)%Hnew. simpl in Hq.
      by apply list_remove_elem in Hq as [_ ?]. }
    simpl in Hlog. rewrite release_log, <- app_assoc in Hlog.
    eexists. split; [exact Hlog|]. case_decide as Hnull.
    + simpl. split; [done|]. intros r (? & q & Hq & ?)%Hnew. split; [done|].
      exists q. simpl in Hq. apply list_remove_elem in Hq as [? _]. done.
    + split.
      * rewrite fmap_app. apply NoDup_app. simpl. split_and!; [apply NoDup_singleton| |done].
        intros a ->%list_elem_of_singleton (r & Hr & Hrn)%list_elem_of_fmap.
        by apply (Hfresh r Hrn).
      * intros r [->%list_elem_of_singleton|Hr]%elem_of_app.
        -- simpl. split; [done|]. by exists p.
        -- destruct (Hnew r Hr) as (? & q & Hq & ?). split; [done|].
           exists q. simpl in Hq. apply list_remove_elem in Hq as [? _]. done.
Qed.

(** An address that has an unreferenced entry has no entry left after
    [collect()], and has been released unless it is null. *)
Lemma collect_loop_removes b s a :
  (∃ d, d ∈ refContainer s ∧ memPtr d = a ∧ refCount d <= 0) →
  (a ∉ addresses (snd (collect_loop b s))) ∧
  (a ≠ nullptr → a ∈ released_addresses (snd (collect_loop b s))).
Proof.
  revert a.
  apply (collect_loop_rounds
    (λ _ s r, ∀ a, (∃ d, d ∈ refContainer s ∧ memPtr d = a ∧ refCount d <= 0) →
                   (a ∉ addresses r.2) ∧ (a ≠ nullptr → a ∈ released_addresses r.2))).
  - intros b0 s' Hnone a (d & Hd & _ & Hz).
    apply first_unreferenced_None in Hnone. rewrite Forall_forall in Hnone.
    specialize (Hnone d Hd). lia.
  - intros _ s' p Hp IH a (d & Hd & Hda & Hz).
    destruct (decide (memPtr p = a)) as [Hpa|Hpa].
    + split.
      * intros (e & -> & He)%list_elem_of_fmap.
        eapply elem_of_sublist in He; [|apply collect_loop_sublist].
        simpl in He. apply list_remove_elem in He as [_ ?]. done.
      * intros Hnn. destruct (collect_loop_releases true (collect_next p s'))
          as (new & Hlog & _).
        unfold released_addresses. rewrite Hlog. simpl.
        rewrite release_log, decide_False by congruence.
        rewrite !fmap_app. simpl. rewrite Hpa.
        apply elem_of_app. left. apply elem_of_app. right. by left.
    + apply IH. exists d. split_and!; [|done..].
      simpl. apply list_remove_elem. split; [done|congruence].
Qed.

(** ** Reassignment *)

Lemma refCount_decr_one d : refCount d = 1 → refCount (decr d) = 0.
Proof. intros H. simpl. by rewrite H. Qed.

(** The statics either assignment leaves, given the ones it found. *)
Lemma assign_raw_inv N junk this t s ret this' s' :
  assign_raw N junk this t s = Some (ret, this', s') →
  ret = t ∧ this' = set_addr t this ∧
  ∃ s1, through (findPtrInfo (addr this) s) decr s = Some s1 ∧
        ((∃ i, findPtrInfo t s1 = Some i ∧
               s' = set_refContainer (alter incr i (refContainer s1)) s1) ∨
         (findPtrInfo t s1 = None ∧
          s' = set_refContainer
                 (refContainer s1 ++ [PtrDetails_ctor junk t (to_unsigned N)]) s1)).
Proof.
  unfold assign_raw. intros H.
  destruct (through _ decr s) as [s1|] eqn:H1; [|done].
  simpl in H. injection H as <- <- <-.
  split_and!; try done. exists s1. split; [done|].
  destruct (findPtrInfo t s1) as [i|]; eauto.
Qed.

Lemma assign_ptr_inv this rv s this' s' :
  assign_ptr this rv s = Some (this', s') →
  this' = set_addr (addr rv) this ∧
  ∃ s1, through (findPtrInfo (addr this) s) decr s = Some s1 ∧
        through (findPtrInfo (addr rv) s1) incr s1 = Some s'.
Proof.
  unfold assign_ptr. intros H.
  destruct (through _ decr s) as [s1|] eqn:H1; [|done]. simpl in H.
  destruct (through _ incr s1) as [s2|] eqn:H2; [|done]. simpl in H.
  injection H as <- <-. eauto.
Qed.

(** The entry pushed for an address that has none, in any registry. *)
Lemma assign_raw_unregistered N junk this t s ret this' s' :
  t ∉ addresses s →
  assign_raw N junk this t s = Some (ret, this', s') →
  last (refContainer s') =
  Some {| refCount := to_unsigned (junk + 1); memPtr := t;
          isArray := bool_decide (to_unsigned N = 0); arraySize := to_unsigned N |}.
Proof.
  intros Ht (_ & _ & s1 & H1 & Hs')%assign_raw_inv.
  pose proof (through_addresses _ _ _ _ memPtr_decr H1) as Ha.
  destruct Hs' as [(i & Hi & _)|(_ & ->)].
  - destruct Ht. rewrite <- Ha. apply findPtrInfo_is_Some. by eexists.
  - simpl. by rewrite last_snoc.
Qed.

(** C7: neither [operator=] collects.  After [this = t] for a raw address
    or [this = rv] for a handle, nothing has been released that was not
    released before and every address that had an entry still has one.  If
    the old target had a count of one and the new target is another address,
    the old target's entry is still there, with a count of zero; the next
    [collect()] (the one a destructor runs, or an explicit one) removes it
    and releases the address. *)
Theorem reassignment_does_not_collect (N : Z) (this this' : Pointer) (s s' : Statics) :
  (∃ junk t, assign_raw N junk this t s = Some (t, this', s')) ∨
  (∃ rv, assign_ptr this rv s = Some (this', s')) →
  released s' = released s ∧
  (∀ a, a ∈ addresses s → a ∈ addresses s') ∧
  (tracked_count (addr this) s = Some 1 → addr this' ≠ addr this →
   tracked_count (addr this) s' = Some 0 ∧
   (addr this ∉ addresses (snd (collect s'))) ∧
   (addr this ≠ nullptr → addr this ∈ released_addresses (snd (collect s')))).
Proof.
  intros H.
  assert (∃ s1, through (findPtrInfo (addr this) s) decr s = Some s1 ∧
                released s' = released s1 ∧
                (∀ a, a ∈ addresses s1 → a ∈ addresses s') ∧
                (addr this' ≠ addr this →
                 tracked_count (addr this) s' = tracked_count (addr this) s1))
    as (s1 & H1 & Hrel & Haddr & Hcount).
  { destruct H as [(junk & t & H)|(rv & H)].
    - apply assign_raw_inv in H as (_ & -> & s1 & H1 & Hs').
      exists s1. split; [done|].
      destruct Hs' as [(i & Hi & ->)|(Hnone & ->)].
      + split_and!; [done| |].
        * intros a. by rewrite addresses_alter by auto with registry.
        * simpl. intros Hne.
          assert (through (findPtrInfo t s1) incr s1
                  = Some (set_refContainer (alter incr i (refContainer s1)) s1)) as Ht.
          { unfold through. rewrite Hi. simpl.
            apply findPtrInfo_Some in Hi as (d & -> & _). done. }
          by apply (through_tracked_other t (addr this) incr s1 _); auto with registry.
      + split_and!; [done| |].
        * intros a Ha. unfold addresses. simpl. rewrite fmap_app.
          apply elem_of_app. by left.
        * intros _. apply tracked_count_push_back.
          rewrite (through_addresses _ _ _ _ memPtr_decr H1).
          apply findPtrInfo_is_Some.
          apply through_findPtrInfo in H1 as (i & ? & -> & _). by eexists.
    - apply assign_ptr_inv in H as (-> & s1 & H1 & H2).
      exists s1. split; [done|]. split_and!.
      + by apply through_frame in H2 as (-> & _).
      + intros a. by rewrite (through_addresses _ _ _ _ memPtr_incr H2).
      + simpl. intros Hne.
        by apply (through_tracked_other (addr rv) (addr this) incr s1 s');
          auto with registry. }
  split_and!.
  - rewrite Hrel. by apply through_frame in H1 as (-> & _).
  - intros a Ha. apply Haddr.
    by rewrite (through_addresses _ _ _ _ memPtr_decr H1).
  - intros Hone Hne.
    destruct (through_tracked_same _ _ _ _ memPtr_decr H1) as (d & Hd & Hda & Hbefore & Hafter).
    assert (refCount d = 1) as Hd1 by congruence.
    assert (tracked_count (addr this) s' = Some 0) as Hzero.
    { rewrite (Hcount Hne), Hafter. f_equal. by apply refCount_decr_one. }
    split; [done|]. apply collect_loop_removes.
    unfold tracked_count in Hzero.
    destruct (findPtrInfo (addr this) s') as [i|] eqn:Hi; simplify_eq/=.
    apply findPtrInfo_Some in Hi as (e & He & Hea & _).
    exists e. rewrite He in Hzero. simplify_eq/=.
    split_and!; [by eapply list_elem_of_lookup_2 | done | lia].
Qed.

Lemma reassignment_does_not_collect_witness :
  let this := {| addr := 5; ptr_isArray := false; ptr_arraySize := 0 |} in
  let this' := {| addr := 6; ptr_isArray := false; ptr_arraySize := 0 |} in
  let s := {| refContainer := [mkPtrDetails 1 5 false 0];
              first := false; exit_hooks := 1; released := [] |} in
  let s' := {| refContainer := [mkPtrDetails 0 5 false 0; mkPtrDetails 1 6 true 0];
               first := false; exit_hooks := 1; released := [] |} in
  released s' = released s ∧
  (∀ a, a ∈ addresses s → a ∈ addresses s') ∧
  (tracked_count (addr this) s = Some 1 → addr this' ≠ addr this →
   tracked_count (addr this) s' = Some 0 ∧
   (addr this ∉ addresses (snd (collect s'))) ∧
   (addr this ≠ nullptr → addr this ∈ released_addresses (snd (collect s')))).
Proof.
  apply (reassignment_does_not_collect 0
           {| addr := 5; ptr_isArray := false; ptr_arraySize := 0 |}
           {| addr := 6; ptr_isArray := false; ptr_arraySize := 0 |}
           {| refContainer := [mkPtrDetails 1 5 false 0];
              first := false; exit_hooks := 1; released := [] |}
           {| refContainer := [mkPtrDetails 0 5 false 0; mkPtrDetails 1 6 true 0];
              first := false; exit_hooks := 1; released := [] |}).
  left. exists 0, 6. reflexivity.
Defined.

(** The handle path of the same, evaluated: [a = b] for handles over [5] and
    [6] leaves the entry of [5] in the registry with a count of zero. *)
Example assign_ptr_leaves_zero_entry :
  assign_ptr (mkPointer 5 false 0) (mkPointer 6 false 0)
    {| refContainer := [mkPtrDetails 1 5 false 0; mkPtrDetails 1 6 false 0];
       first := false; exit_hooks := 1; released := [] |}
  = Some (mkPointer 6 false 0,
          {| refContainer := [mkPtrDetails 0 5 false 0; mkPtrDetails 2 6 false 0];
             first := false; exit_hooks := 1; released := [] |}).
Proof. reflexivity. Qed.

(** C10: [l = r] on two handles returns a reference to [r], the right-hand
    operand, and leaves in [l] the address that [r] holds; unless the two
    are one object, the reference is not to [l], and [r] is as it was. *)
Theorem assign_returns_right_operand (l r ref : nat) (w w' : World) :
  op_assign l r w = Some (ref, w') →
  ref = r ∧
  (∃ this' rv, objects w !! r = Some rv ∧ objects w' !! l = Some this' ∧
               addr this' = addr rv) ∧
  (l ≠ r → ref ≠ l ∧ objects w' !! ref = objects w !! r).
Proof.
  unfold op_assign. intros H.
  destruct (objects w !! l) as [this|] eqn:Hl; [|done]. simpl in H.
  destruct (objects w !! r) as [rv|] eqn:Hr; [|done]. simpl in H.
  destruct (assign_ptr this rv (statics w)) as [[this' s']|] eqn:Ha; [|done].
  simpl in H. injection H as <- <-.
  apply assign_ptr_inv in Ha as (-> & _).
  split_and!; [done | |].
  - exists (set_addr (addr rv) this), rv. simpl.
    by rewrite lookup_insert_eq.
  - intros Hne. split; [done|]. simpl. by rewrite lookup_insert_ne.
Qed.

Lemma assign_returns_right_operand_witness :
  let w := {| statics := {| refContainer := [mkPtrDetails 1 5 false 0; mkPtrDetails 1 6 false 0];
                            first := false; exit_hooks := 1; released := [] |};
              objects := <[1%nat := mkPointer 6 false 0]> {[ 0%nat := mkPointer 5 false 0 ]} |} in
  let w' := {| statics := {| refContainer := [mkPtrDetails 0 5 false 0; mkPtrDetails 2 6 false 0];
                             first := false; exit_hooks := 1; released := [] |};
               objects := <[0%nat := mkPointer 6 false 0]>
                            (<[1%nat := mkPointer 6 false 0]> {[ 0%nat := mkPointer 5 false 0 ]}) |} in
  1%nat = 1%nat ∧
  (∃ this' rv, objects w !! 1%nat = Some rv ∧ objects w' !! 0%nat = Some this' ∧
               addr this' = addr rv) ∧
  (0%nat ≠ 1%nat → 1%nat ≠ 0%nat ∧ objects w' !! 1%nat = objects w !! 1%nat).
Proof.
  apply (assign_returns_right_operand 0 1 1
    {| statics := {| refContainer := [mkPtrDetails 1 5 false 0; mkPtrDetails 1 6 false 0];
                     first := false; exit_hooks := 1; released := [] |};
       objects := <[1%nat := mkPointer 6 false 0]> {[ 0%nat := mkPointer 5 false 0 ]} |}
    {| statics := {| refContainer := [mkPtrDetails 0 5 false 0; mkPtrDetails 2 6 false 0];
                     first := false; exit_hooks := 1; released := [] |};
       objects := <[0%nat := mkPointer 6 false 0]>
                    (<[1%nat := mkPointer 6 false 0]> {[ 0%nat := mkPointer 5 false 0 ]}) |}).
  reflexivity.
Defined.

(** ** Construction never looks the address up *)

Lemma Pointer_ctor_with_junk N junk t s :
  Pointer_ctor_with N junk t s = Pointer_ctor N t s.
Proof. reflexivity. Qed.

Lemma Pointer_ctor_addresses N t s :
  addresses (snd (Pointer_ctor N t s)) = addresses s ++ [t].
Proof. unfold addresses. simpl. by rewrite fmap_app. Qed.

(** Assignment of a raw address, for comparison, adds no entry for a
    registered address. *)
Lemma assign_raw_registered N junk this t s ret this' s' :
  t ∈ addresses s →
  assign_raw N junk this t s = Some (ret, this', s') →
  addresses s' = addresses s.
Proof.
  intros Ht (_ & _ & s1 & H1 & Hs')%assign_raw_inv.
  pose proof (through_addresses _ _ _ _ memPtr_decr H1) as Ha.
  destruct Hs' as [(i & _ & ->)|(Hnone & _)].
  - by rewrite addresses_alter by auto with registry.
  - apply findPtrInfo_None in Hnone. by rewrite Ha in Hnone.
Qed.

(** C2: two handles constructed from the same address [t].  The second
    construction pushes a second entry for [t]: the registry then holds
    two entries with that address.  Whatever the registry holds,
    the constructor from a raw address appends an entry for its argument. *)
Theorem second_ctor_duplicates_entry (N t : Z) :
  (∀ s, addresses (snd (Pointer_ctor N t s)) = addresses s ++ [t]) ∧
  ∃ w, run N [New 0 t; New 1 t] boot = Some w ∧
       addresses (statics w) = [t; t] ∧
       ¬ NoDup (addresses (statics w)).
Proof.
  split; [apply Pointer_ctor_addresses|].
  eexists. split; [reflexivity|]. split; [reflexivity|].
  simpl. intros Hnd. apply NoDup_cons in Hnd as [Hnotin _].
  apply Hnotin. by left.
Qed.

(** C1: after two handles have been constructed from the address [5], two
    live handles hold that address and the entry [findPtrInfo] finds for it
    has a count of [1]. *)
Theorem duplicate_ctor_undercounts (N : Z) :
  ∃ w, run N [New 0 5; New 1 5] boot = Some w ∧
       live_handles 5 w = 2%nat ∧
       tracked_count 5 (statics w) = Some 1.
Proof. eexists. split; [reflexivity|]. by vm_compute. Qed.

(** What follows from the two entries: destroying the first handle removes
    both and releases the address while the second handle is alive, and the
    second handle's destructor then goes through [end()]. *)
Example duplicate_ctor_premature_release :
  ∃ w, run 0 [New 0 5; New 1 5; Delete 0] boot = Some w ∧
       released_addresses (statics w) = [5] ∧
       refContainer (statics w) = [] ∧
       live_handles 5 w = 1%nat ∧
       step 0 (Delete 1) w = None.
Proof. eexists. split; [reflexivity|]. by vm_compute. Qed.

(** The scenario of the handles [a] and [b], [b] a copy of [a]: the count
    of the address after each step, and the releases. *)
Example copy_then_destroy_both :
  let after ops := statics <$> run 0 ops boot in
  after [New 0 5] = Some (mkStatics [mkPtrDetails 1 5 false 0] false 1 []) ∧
  after [New 0 5; NewCopy 1 0] = Some (mkStatics [mkPtrDetails 2 5 false 0] false 1 []) ∧
  after [New 0 5; NewCopy 1 0; Delete 1]
    = Some (mkStatics [mkPtrDetails 1 5 false 0] false 1 []) ∧
  after [New 0 5; NewCopy 1 0; Delete 1; Delete 0]
    = Some (mkStatics [] false 1 [mkRelease 5 false]).
Proof. vm_compute. done. Qed.

(** An array of five: one entry, released with [delete[]]. *)
Example array_handle_released_as_array :
  let after ops := statics <$> run 5 ops boot in
  after [New 0 5] = Some (mkStatics [mkPtrDetails 1 5 true 5] false 1 []) ∧
  refContainerSize <$> after [New 0 5] = Some 1 ∧
  after [New 0 5; Delete 0] = Some (mkStatics [] false 1 [mkRelease 5 true]).
Proof. vm_compute. done. Qed.

(** Reassigning [a] to a new address while [b] still holds the old one. *)
Example reassign_while_aliased :
  statics <$> run 0 [New 0 5; NewCopy 1 0; AssignRaw 0 0 6] boot
  = Some (mkStatics [mkPtrDetails 1 5 false 0; mkPtrDetails 1 6 true 0] false 1 []).
Proof. vm_compute. done. Qed.

(** ** Default construction *)

Lemma Pointer_default_runs N uninit s :
  ∃ s', Pointer_default N uninit s = Some (uninit, s').
Proof.
  unfold Pointer_default.
  destruct (Pointer_ctor N nullptr s) as [temporary s1] eqn:Hc.
  assert (addr temporary = nullptr ∧ nullptr ∈ addresses s1) as [Ha Hreg].
  { replace temporary with (fst (Pointer_ctor N nullptr s)) by by rewrite Hc.
    replace s1 with (snd (Pointer_ctor N nullptr s)) by by rewrite Hc.
    split; [done|]. rewrite Pointer_ctor_addresses. apply elem_of_app. right. by left. }
  unfold Pointer_dtor, Pointer_dtor_unref. rewrite Ha.
  destruct (through_registered nullptr
              (λ d, if decide (refCount d ≠ 0) then decr d else d) s1 Hreg) as [s2 ->].
  by eexists.
Qed.

(** C3: [Pointer()] leaves the members of the object it constructs as
    its storage held them, whatever they were: the address is null only
    when the storage happened to hold null.  The constructor that ran
    initialised a temporary; on the statics of a fresh program the
    temporary's null entry is pushed and collected again. *)
Theorem default_ctor_initialises_nothing (N : Z) (uninit : Pointer) (s : Statics) :
  (∃ s', Pointer_default N uninit s = Some (uninit, s')) ∧
  Pointer_default N uninit startup =
  Some (uninit,
        {| refContainer := []; first := false; exit_hooks := 1; released := [] |}).
Proof. split; [apply Pointer_default_runs | reflexivity]. Qed.

Example default_ctor_address_not_null :
  ∃ this s, Pointer_default 0 (mkPointer 7 true 9) startup = Some (this, s) ∧
            addr this = 7 ∧ addr this ≠ nullptr ∧ findPtrInfo (addr this) s = None.
Proof. eexists _, _. split; [reflexivity|]. by vm_compute. Qed.

(** ** No address is released twice *)

Lemma safe_startup : safe startup.
Proof. split; [constructor | by intros ?%elem_of_nil | by intros ? ?%elem_of_nil]. Qed.

Lemma safe_same_addresses s s' :
  addresses s' = addresses s → released s' = released s → safe s → safe s'.
Proof.
  intros Ha Hr [H1 H2 H3]. unfold released_addresses in *.
  split; unfold released_addresses; rewrite ?Ha, Hr; done.
Qed.

Lemma safe_push_back d s :
  memPtr d ∉ released_addresses s → safe s →
  safe (set_refContainer (refContainer s ++ [d]) s).
Proof.
  intros Hd [H1 H2 H3]. split; try done.
  intros a. unfold addresses. simpl. rewrite fmap_app.
  intros [Ha| ->%list_elem_of_singleton]%elem_of_app; [by apply H3 | done].
Qed.

Lemma safe_through a f s s' :
  (∀ d, memPtr (f d) = memPtr d) →
  through (findPtrInfo a s) f s = Some s' → safe s → safe s'.
Proof.
  intros Hf H. apply safe_same_addresses.
  - by eapply through_addresses.
  - by apply through_frame in H as (-> & _).
Qed.

Lemma safe_collect_next p s : p ∈ refContainer s → safe s → safe (collect_next p s).
Proof.
  intros Hp [H1 H2 H3].
  assert (memPtr p ∉ released_addresses s) as Hfresh.
  { apply H3. apply list_elem_of_fmap. eauto. }
  assert (∀ a, a ∈ addresses (collect_next p s) → a ∈ addresses s ∧ a ≠ memPtr p) as Hleft.
  { intros a (d & -> & Hd)%list_elem_of_fmap. simpl in Hd.
    apply list_remove_elem in Hd as [Hd Hne]. split; [|done].
    apply list_elem_of_fmap. eauto. }
  assert (released_addresses (collect_next p s)
          = released_addresses s ++ (if decide (memPtr p = nullptr) then [] else [memPtr p]))
    as Hlog.
  { unfold released_addresses. cbn [collect_next released].
    rewrite release_log, fmap_app. by case_decide. }
  split; rewrite ?Hlog; case_decide as Hnull; rewrite ?app_nil_r; try done.
  - apply NoDup_app. split_and!; [done| |apply NoDup_singleton].
    intros a Ha ->%list_elem_of_singleton. done.
  - apply not_elem_of_app. split; [done|].
    intros Hin%list_elem_of_singleton. by apply Hnull.
  - intros a [Ha _]%Hleft. by apply H3.
  - intros a [Ha Hne]%Hleft.
    apply not_elem_of_app. split; [by apply H3|].
    by intros ->%list_elem_of_singleton.
Qed.

Lemma safe_collect_loop b s : safe s → safe (snd (collect_loop b s)).
Proof.
  apply (collect_loop_rounds (λ _ s r, safe s → safe r.2)).
  - done.
  - intros _ s' p [Hp _]%first_unreferenced_Some IH Hs.
    by apply IH, safe_collect_next.
Qed.

Lemma safe_zero_counts s : safe s → safe (zero_counts s).
Proof.
  apply safe_same_addresses; [|done].
  unfold addresses. simpl. rewrite <- list_fmap_compose. done.
Qed.

Lemma safe_shutdown s : safe s → safe (shutdown s).
Proof.
  intros Hs. unfold shutdown. case_decide; [done|].
  by apply safe_collect_loop, safe_zero_counts.
Qed.

Lemma safe_ctor N t s :
  t ∉ released_addresses s → safe s → safe (snd (Pointer_ctor N t s)).
Proof.
  intros Ht [H1 H2 H3]. split; try done.
  intros a. rewrite Pointer_ctor_addresses.
  intros [Ha| ->%list_elem_of_singleton]%elem_of_app; [by apply H3 | done].
Qed.

Lemma safe_dtor this s s' : Pointer_dtor this s = Some s' → safe s → safe s'.
Proof.
  unfold Pointer_dtor, Pointer_dtor_unref. intros H Hs.
  destruct (through _ _ s) as [s1|] eqn:H1; [|done]. simpl in H. injection H as <-.
  apply safe_collect_loop. eapply safe_through; [|exact H1|done]. apply memPtr_unref.
Qed.

Lemma safe_default N uninit s this s' :
  Pointer_default N uninit s = Some (this, s') → safe s → safe s'.
Proof.
  unfold Pointer_default. intros H Hs.
  destruct (Pointer_ctor N nullptr s) as [temporary s1] eqn:Hc.
  destruct (Pointer_dtor temporary s1) as [s2|] eqn:Hd; [|done].
  simpl in H. injection H as _ <-.
  eapply safe_dtor; [exact Hd|].
  replace s1 with (snd (Pointer_ctor N nullptr s)) by by rewrite Hc.
  apply safe_ctor; [|done]. by destruct Hs.
Qed.

Lemma safe_copy obj s c s' : Pointer_copy obj s = Some (c, s') → safe s → safe s'.
Proof.
  unfold Pointer_copy. intros H.
  destruct (through _ _ s) as [s1|] eqn:H1; [|done]. simpl in H. injection H as _ <-.
  eapply safe_through; [|exact H1]. apply memPtr_incr.
Qed.

Lemma safe_assign_raw N junk this t s ret this' s' :
  t ∉ released_addresses s →
  assign_raw N junk this t s = Some (ret, this', s') → safe s → safe s'.
Proof.
  intros Ht (_ & _ & s1 & H1 & Hs')%assign_raw_inv Hs.
  pose proof (safe_through _ _ _ _ memPtr_decr H1 Hs) as Hs1.
  destruct Hs' as [(i & _ & ->)|(_ & ->)].
  - apply (safe_same_addresses s1); [|done..].
    apply addresses_alter, memPtr_incr.
  - apply safe_push_back; [|done]. simpl.
    unfold released_addresses. by apply through_frame in H1 as (-> & _).
Qed.

Lemma safe_assign_ptr this rv s this' s' :
  assign_ptr this rv s = Some (this', s') → safe s → safe s'.
Proof.
  intros (_ & s1 & H1 & H2)%assign_ptr_inv Hs.
  eapply safe_through; [apply memPtr_incr|exact H2|].
  eapply safe_through; [apply memPtr_decr|exact H1|done].
Qed.

(** ** Counts stay [unsigned] values *)

Lemma to_unsigned_range z : is_unsigned (to_unsigned z).
Proof. unfold is_unsigned, to_unsigned, UINT_MOD. apply Z.mod_pos_bound. lia. Qed.

Lemma unsigned_counts_through a f s s' :
  (∀ d, is_unsigned (refCount d) → is_unsigned (refCount (f d))) →
  through (findPtrInfo a s) f s = Some s' → unsigned_counts s → unsigned_counts s'.
Proof.
  intros Hf (i & d & _ & Hd & _ & ->)%through_findPtrInfo Hs.
  unfold unsigned_counts in *. simpl. apply Forall_alter; [done|].
  intros e _ He. by apply Hf.
Qed.

Lemma is_unsigned_incr d : is_unsigned (refCount d) → is_unsigned (refCount (incr d)).
Proof. intros _. apply to_unsigned_range. Qed.

Lemma is_unsigned_decr d : is_unsigned (refCount d) → is_unsigned (refCount (decr d)).
Proof. intros _. apply to_unsigned_range. Qed.

Lemma is_unsigned_unref d :
  is_unsigned (refCount d) →
  is_unsigned (refCount (if decide (refCount d ≠ 0) then decr d else d)).
Proof. intros H. case_decide; [apply to_unsigned_range | done]. Qed.

#[local] Hint Resolve is_unsigned_incr is_unsigned_decr is_unsigned_unref : registry.

Lemma unsigned_counts_push_back d s :
  is_unsigned (refCount d) → unsigned_counts s →
  unsigned_counts (set_refContainer (refContainer s ++ [d]) s).
Proof.
  intros Hd Hs. unfold unsigned_counts. simpl.
  apply Forall_app. split; [done|]. by apply Forall_singleton.
Qed.

Lemma unsigned_counts_collect_loop b s :
  unsigned_counts s → unsigned_counts (snd (collect_loop b s)).
Proof.
  unfold unsigned_counts. rewrite !Forall_forall. intros Hs d Hd.
  apply Hs. eapply elem_of_sublist; [exact Hd|apply collect_loop_sublist].
Qed.

Lemma unsigned_counts_zero_counts s : unsigned_counts (zero_counts s).
Proof.
  unfold unsigned_counts. simpl. apply Forall_fmap, Forall_true.
  intros d. simpl. unfold is_unsigned, UINT_MOD. lia.
Qed.

Lemma unsigned_counts_shutdown s : unsigned_counts s → unsigned_counts (shutdown s).
Proof.
  intros Hs. unfold shutdown. case_decide; [done|].
  apply unsigned_counts_collect_loop, unsigned_counts_zero_counts.
Qed.

Lemma unsigned_counts_ctor N t s :
  unsigned_counts s → unsigned_counts (snd (Pointer_ctor N t s)).
Proof.
  intros Hs. unfold unsigned_counts. simpl.
  apply Forall_app. split; [done|]. apply Forall_singleton. simpl.
  unfold is_unsigned, UINT_MOD. lia.
Qed.

Lemma unsigned_counts_dtor this s s' :
  Pointer_dtor this s = Some s' → unsigned_counts s → unsigned_counts s'.
Proof.
  unfold Pointer_dtor, Pointer_dtor_unref. intros H Hs.
  destruct (through _ _ s) as [s1|] eqn:H1; [|done]. simpl in H. injection H as <-.
  apply unsigned_counts_collect_loop.
  eapply unsigned_counts_through; [|exact H1|done]. apply is_unsigned_unref.
Qed.

Lemma unsigned_counts_default N uninit s this s' :
  Pointer_default N uninit s = Some (this, s') → unsigned_counts s → unsigned_counts s'.
Proof.
  unfold Pointer_default. intros H Hs.
  destruct (Pointer_ctor N nullptr s) as [temporary s1] eqn:Hc.
  destruct (Pointer_dtor temporary s1) as [s2|] eqn:Hd; [|done].
  simpl in H. injection H as _ <-.
  eapply unsigned_counts_dtor; [exact Hd|].
  replace s1 with (snd (Pointer_ctor N nullptr s)) by by rewrite Hc.
  by apply unsigned_counts_ctor.
Qed.

Lemma unsigned_counts_copy obj s c s' :
  Pointer_copy obj s = Some (c, s') → unsigned_counts s → unsigned_counts s'.
Proof.
  unfold Pointer_copy. intros H.
  destruct (through _ _ s) as [s1|] eqn:H1; [|done]. simpl in H. injection H as _ <-.
  eapply unsigned_counts_through; [|exact H1]. apply is_unsigned_incr.
Qed.

Lemma unsigned_counts_assign_raw N junk this t s ret this' s' :
  assign_raw N junk this t s = Some (ret, this', s') →
  unsigned_counts s → unsigned_counts s'.
Proof.
  intros (_ & _ & s1 & H1 & Hs')%assign_raw_inv Hs.
  pose proof (unsigned_counts_through _ _ _ _ is_unsigned_decr H1 Hs) as Hs1.
  destruct Hs' as [(i & _ & ->)|(_ & ->)].
  - unfold unsigned_counts in *. simpl. apply Forall_alter; [done|].
    intros e _ _. apply to_unsigned_range.
  - apply unsigned_counts_push_back; [|done]. apply to_unsigned_range.
Qed.

Lemma unsigned_counts_assign_ptr this rv s this' s' :
  assign_ptr this rv s = Some (this', s') → unsigned_counts s → unsigned_counts s'.
Proof.
  intros (_ & s1 & H1 & H2)%assign_ptr_inv Hs.
  eapply unsigned_counts_through; [apply is_unsigned_incr|exact H2|].
  eapply unsigned_counts_through; [apply is_unsigned_decr|exact H1|done].
Qed.

(** ** Runs *)

Lemma place_inv l r w w' :
  place l r w = Some w' →
  ∃ this s', r = Some (this, s') ∧ objects w !! l = None ∧
             w' = {| statics := s'; objects := <[l := this]> (objects w) |}.
Proof.
  unfold place. intros H.
  destruct (objects w !! l); [done|].
  destruct r as [[this s']|]; [|done]. injection H as <-. eauto.
Qed.

(** The statics a step leaves, by the member function it calls. *)
Lemma step_statics N o w w' :
  step N o w = Some w' →
  match o with
  | New _ t => statics w' = snd (Pointer_ctor N t (statics w))
  | NewDefault _ uninit =>
      ∃ this, Pointer_default N uninit (statics w) = Some (this, statics w')
  | NewCopy _ _ => ∃ obj c, Pointer_copy obj (statics w) = Some (c, statics w')
  | Delete _ => ∃ this, Pointer_dtor this (statics w) = Some (statics w')
  | AssignRaw junk _ t =>
      ∃ this ret this', assign_raw N junk this t (statics w) = Some (ret, this', statics w')
  | Assign _ _ => ∃ this rv this', assign_ptr this rv (statics w) = Some (this', statics w')
  | Collect => statics w' = snd (collect (statics w))
  | Shutdown => statics w' = shutdown (statics w)
  end.
Proof.
  destruct o as [l t|l uninit|l src|l|junk l t|l r| |]; simpl; intros H.
  - apply place_inv in H as (this & s' & H & _ & ->). by injection H as <- <-.
  - apply place_inv in H as (this & s' & H & _ & ->). eauto.
  - destruct (objects w !! src) as [obj|]; [|done]. simpl in H.
    apply place_inv in H as (this & s' & H & _ & ->). eauto.
  - destruct (objects w !! l) as [this|]; [|done]. simpl in H.
    destruct (Pointer_dtor this (statics w)) as [s'|] eqn:Hd; [|done].
    injection H as <-. eauto.
  - unfold op_assign_raw in H.
    destruct (objects w !! l) as [this|]; [|done]. simpl in H.
    destruct (assign_raw N junk this t (statics w)) as [[[ret this'] s']|] eqn:Ha; [|done].
    injection H as <-. eauto.
  - unfold op_assign in H.
    destruct (objects w !! l) as [this|]; [|done]. simpl in H.
    destruct (objects w !! r) as [rv|]; [|done]. simpl in H.
    destruct (assign_ptr this rv (statics w)) as [[this' s']|] eqn:Ha; [|done].
    injection H as <-. eauto.
  - by injection H as <-.
  - by injection H as <-.
Qed.

Lemma step_safe N o w w' :
  dangling o (statics w) = false → step N o w = Some w' →
  safe (statics w) ∧ unsigned_counts (statics w) →
  safe (statics w') ∧ unsigned_counts (statics w').
Proof.
  intros Hd H%step_statics [Hs Hu].
  destruct o as [l t|l uninit|l src|l|junk l t|l r| |]; unfold dangling in Hd; simpl in Hd.
  - rewrite H. apply bool_decide_eq_false in Hd.
    split; [by apply safe_ctor | by apply unsigned_counts_ctor].
  - destruct H as (this & H).
    split; [by eapply safe_default | by eapply unsigned_counts_default].
  - destruct H as (obj & c & H).
    split; [by eapply safe_copy | by eapply unsigned_counts_copy].
  - destruct H as (this & H).
    split; [by eapply safe_dtor | by eapply unsigned_counts_dtor].
  - destruct H as (this & ret & this' & H). apply bool_decide_eq_false in Hd.
    split; [by eapply safe_assign_raw | by eapply unsigned_counts_assign_raw].
  - destruct H as (this & rv & this' & H).
    split; [by eapply safe_assign_ptr | by eapply unsigned_counts_assign_ptr].
  - rewrite H.
    split; [by apply safe_collect_loop | by apply unsigned_counts_collect_loop].
  - rewrite H.
    split; [by apply safe_shutdown | by apply unsigned_counts_shutdown].
Qed.

Lemma run_safe N ops w w' :
  careful N ops w = true → run N ops w = Some w' →
  safe (statics w) ∧ unsigned_counts (statics w) →
  safe (statics w') ∧ unsigned_counts (statics w').
Proof.
  revert w. induction ops as [|o ops IH]; intros w Hc Hr Hw; simpl in *.
  - by injection Hr as <-.
  - destruct (step N o w) as [w1|] eqn:Hstep; [|done]. simpl in Hr.
    apply andb_true_iff in Hc as [Hd Hc]. apply negb_true_iff in Hd.
    eapply IH; [exact Hc|exact Hr|]. by eapply step_safe.
Qed.

(** The steps that do not call [collect()] leave the release log alone. *)
Lemma step_release_frame N o w w' :
  step N o w = Some w' → calls_collect o = false →
  released (statics w') = released (statics w).
Proof.
  intros H%step_statics Hc.
  destruct o as [l t|l uninit|l src|l|junk l t|l r| |]; try done.
  - by rewrite H.
  - destruct H as (obj & c & H). unfold Pointer_copy in H.
    destruct (through _ _ (statics w)) as [s1|] eqn:H1; [|done].
    simpl in H. injection H as _ <-. by apply through_frame in H1 as (-> & _).
  - destruct H as (this & ret & this' & H).
    apply assign_raw_inv in H as (_ & _ & s1 & H1 & Hs').
    apply through_frame in H1 as (<- & _).
    by destruct Hs' as [(i & _ & ->)|(_ & ->)].
  - destruct H as (this & rv & this' & H).
    apply assign_ptr_inv in H as (_ & s1 & H1 & H2).
    apply through_frame in H1 as (<- & _). by apply through_frame in H2 as (-> & _).
Qed.

(** The destructor releases what its [collect()] releases. *)
Lemma Pointer_dtor_releases this s s' :
  Pointer_dtor this s = Some s' →
  ∃ mid, Pointer_dtor_unref this s = Some mid ∧ released mid = released s ∧
         s' = snd (collect mid).
Proof.
  unfold Pointer_dtor. intros H.
  destruct (Pointer_dtor_unref this s) as [mid|] eqn:Hm; [|done].
  injection H as <-. exists mid. split_and!; try done.
  unfold Pointer_dtor_unref in Hm. by apply through_frame in Hm as (-> & _).
Qed.

(** C5: two handles constructed from the address [5], then the first
    destroyed.  The [collect()] of the destructor runs on a registry that
    holds the entries [(5, 0)] and [(5, 1)]: it releases [5] while an
    entry of that address has a count of [1] and the second handle, which
    holds [5], is alive; both entries are removed.  A third handle that is
    then given the address the live handle holds registers it anew, and its
    destruction releases [5] a second time. *)
Theorem referenced_address_released (N : Z) :
  (w ← run N [New 0 5; New 1 5] boot;
   this ← objects w !! 0%nat;
   mid ← Pointer_dtor_unref this (statics w);
   Some (addresses mid, refCount <$> refContainer mid,
         released_addresses (snd (collect mid))))
  = Some ([5; 5], [0; 1], [5]) ∧
  (w ← run N [New 0 5; New 1 5; Delete 0] boot;
   Some (released_addresses (statics w), addresses (statics w),
         live_handles 5 w, addr <$> objects w !! 1%nat))
  = Some ([5], [], 1%nat, Some 5) ∧
  (w ← run N [New 0 5; New 1 5; New 2 6; Delete 0] boot;
   Some (live_handles 5 w, released_addresses (statics w)))
  = Some (1%nat, [5]) ∧
  (w ← run N [New 0 5; New 1 5; New 2 6; Delete 0; AssignRaw 0 2 5; Delete 2] boot;
   Some (released_addresses (statics w)))
  = Some [5; 6; 5].
Proof. split_and!; vm_compute; reflexivity. Qed.

(** What does hold of the releases.  In a run of handle operations from
    program start in which the client never hands over an address that has
    been released, no address is released twice.  A release happens in [collect()] only: the steps
    that do not call it leave the release log as it is, and the destructor
    itself only lowers a count, its releases being those of the
    [collect()] it ends with.  What one [collect()] releases are addresses,
    each once, that have an entry whose count is zero when it is called.
    The counts of the registry the run ends with are [unsigned] values. *)
Theorem release_only_by_collect_at_zero (N : Z) (ops : list op) (w : World) :
  careful N ops boot = true →
  run N ops boot = Some w →
  NoDup (released_addresses (statics w)) ∧
  unsigned_counts (statics w) ∧
  (∀ o w1 w2, step N o w1 = Some w2 → calls_collect o = false →
              released (statics w2) = released (statics w1)) ∧
  (∀ this s s', Pointer_dtor this s = Some s' →
                ∃ mid, Pointer_dtor_unref this s = Some mid ∧
                       released mid = released s ∧ s' = snd (collect mid)) ∧
  (∀ s, unsigned_counts s →
        ∃ new, released (snd (collect s)) = released s ++ new ∧
               NoDup (rel_addr <$> new) ∧
               ∀ r, r ∈ new → ∃ p, p ∈ refContainer s ∧ memPtr p = rel_addr r ∧
                                   refCount p = 0).
Proof.
  intros Hc Hr.
  destruct (run_safe N ops boot w Hc Hr) as [[Hnd _ _] Hu].
  { split; [apply safe_startup | constructor]. }
  split_and!; [done | done | apply step_release_frame | apply Pointer_dtor_releases |].
  intros s Hs. destruct (collect_loop_releases false s) as (new & Hlog & Hnew & Hall).
  exists new. split_and!; [done..|].
  intros r (_ & p & Hp & Hpr & Hz & _)%Hall. exists p. split_and!; [done..|].
  unfold unsigned_counts in Hs. rewrite Forall_forall in Hs.
  specialize (Hs p Hp). unfold is_unsigned in Hs. lia.
Qed.

Lemma release_only_by_collect_at_zero_witness :
  let w := {| statics := mkStatics [] false 1
                           [mkRelease 5 false; mkRelease 6 false; mkRelease 7 true];
              objects := {[ 3%nat := mkPointer 9 false 0 ]} |} in
  NoDup (released_addresses (statics w)) ∧
  unsigned_counts (statics w) ∧
  (∀ o w1 w2, step 0 o w1 = Some w2 → calls_collect o = false →
              released (statics w2) = released (statics w1)) ∧
  (∀ this s s', Pointer_dtor this s = Some s' →
                ∃ mid, Pointer_dtor_unref this s = Some mid ∧
                       released mid = released s ∧ s' = snd (collect mid)) ∧
  (∀ s, unsigned_counts s →
        ∃ new, released (snd (collect s)) = released s ++ new ∧
               NoDup (rel_addr <$> new) ∧
               ∀ r, r ∈ new → ∃ p, p ∈ refContainer s ∧ memPtr p = rel_addr r ∧
                                   refCount p = 0).
Proof.
  apply (release_only_by_collect_at_zero 0
           [New 0 5; NewCopy 1 0; New 2 6; AssignRaw 0 2 7; Assign 1 2;
            Delete 0; NewDefault 3 (mkPointer 9 false 0); Delete 2; Delete 1]
           {| statics := mkStatics [] false 1
                           [mkRelease 5 false; mkRelease 6 false; mkRelease 7 true];
              objects := {[ 3%nat := mkPointer 9 false 0 ]} |}).
  - vm_compute. reflexivity.
  - vm_compute. reflexivity.
Defined.

(** The run of the witness, evaluated: it ends, with the three addresses
    released once each. *)
Example release_run_evaluated :
  statics <$> run 0 [New 0 5; NewCopy 1 0; New 2 6; AssignRaw 0 2 7; Assign 1 2;
                     Delete 0; NewDefault 3 (mkPointer 9 false 0); Delete 2; Delete 1] boot
  = Some (mkStatics [] false 1 [mkRelease 5 false; mkRelease 6 false; mkRelease 7 true]).
Proof. vm_compute. done. Qed.

(** ** Counting live handles *)

Lemma live_handles_holders a w : live_handles a w = holders a (objects w).
Proof. done. Qed.

Lemma holders_insert_fresh a m l h :
  m !! l = None →
  holders a (<[l := h]> m) = (holders a m + (if decide (addr h = a) then 1 else 0))%nat.
Proof.
  intros Hl. unfold holders. destruct (decide (addr h = a)) as [Ha|Ha].
  - rewrite map_filter_insert_True by done.
    rewrite map_size_insert_None; [lia|].
    apply map_lookup_filter_None. by left.
  - rewrite map_filter_insert_False by done.
    rewrite delete_id by done. lia.
Qed.

Lemma holders_delete a m l h :
  m !! l = Some h →
  holders a m = (holders a (delete l m) + (if decide (addr h = a) then 1 else 0))%nat.
Proof.
  intros Hl. rewrite <- (insert_delete_id m l h Hl) at 1.
  apply holders_insert_fresh, lookup_delete_eq.
Qed.

Lemma holders_none a m : (∀ l h, m !! l = Some h → addr h ≠ a) → holders a m = 0%nat.
Proof.
  intros H. apply map_size_empty_iff, map_empty_filter.
  intros l h Hl. by apply H in Hl.
Qed.

Lemma holders_bound a m : (holders a m <= base.size m)%nat.
Proof. apply map_size_filter. Qed.

(** ** Counts on registries with one entry per address *)

Lemma unique_entry s d e :
  NoDup (addresses s) → d ∈ refContainer s → e ∈ refContainer s →
  memPtr d = memPtr e → d = e.
Proof.
  intros Hnd [i Hi]%list_elem_of_lookup_1 [j Hj]%list_elem_of_lookup_1 Heq.
  assert (i = j) as ->; [|congruence].
  apply (NoDup_lookup (addresses s) i j (memPtr d) Hnd); unfold addresses;
    rewrite list_lookup_fmap; [by rewrite Hi | by rewrite Hj, Heq].
Qed.

Lemma tracked_count_Some a s n :
  tracked_count a s = Some n →
  ∃ d, d ∈ refContainer s ∧ memPtr d = a ∧ refCount d = n.
Proof.
  unfold tracked_count. intros H.
  destruct (findPtrInfo a s) as [i|] eqn:Hi; [|done]. simpl in H.
  apply findPtrInfo_Some in Hi as (d & Hd & Ha & _).
  rewrite Hd in H. injection H as <-.
  exists d. split_and!; [by eapply list_elem_of_lookup_2 | done..].
Qed.

Lemma tracked_count_None a s : tracked_count a s = None → a ∉ addresses s.
Proof.
  unfold tracked_count. intros H. apply findPtrInfo_None.
  destruct (findPtrInfo a s) as [i|] eqn:Hi; [|done]. simpl in H.
  apply findPtrInfo_Some in Hi as (d & Hd & _). by rewrite Hd in H.
Qed.

(** The entries after a write through [findPtrInfo(a)]. *)
Lemma through_entries a f s s' :
  NoDup (addresses s) → (∀ d, memPtr (f d) = memPtr d) →
  through (findPtrInfo a s) f s = Some s' →
  ∀ e, e ∈ refContainer s' →
       (∃ d, d ∈ refContainer s ∧ memPtr d = a ∧ e = f d) ∨
       (e ∈ refContainer s ∧ memPtr e ≠ a).
Proof.
  intros Hnd Hf (i & d & _ & Hd & Ha & ->)%through_findPtrInfo e.
  simpl. intros [j Hj]%list_elem_of_lookup_1.
  destruct (decide (i = j)) as [<-|Hij].
  - rewrite list_lookup_alter_eq, Hd in Hj. injection Hj as <-.
    left. exists d. split_and!; [by eapply list_elem_of_lookup_2 | done..].
  - rewrite list_lookup_alter_ne in Hj by done.
    right. split; [by eapply list_elem_of_lookup_2|].
    intros He. apply Hij.
    apply (NoDup_lookup (addresses s) i j a Hnd); unfold addresses;
      rewrite list_lookup_fmap; [by rewrite Hd, <- Ha | by rewrite Hj, <- He].
Qed.

(** One round is all [collect()] takes when one address only is
    unreferenced. *)
Lemma collect_single p s :
  first_unreferenced (refContainer s) = Some p →
  Forall (λ d, refCount d > 0) (list_remove p (refContainer s)) →
  collect s = (true, collect_next p s).
Proof.
  intros Hp Hrest. unfold collect. rewrite collect_loop_step, Hp.
  rewrite collect_loop_step.
  replace (refContainer (collect_next p s)) with (list_remove p (refContainer s)) by done.
  by apply first_unreferenced_None in Hrest as ->.
Qed.

(** ** The counts along a disciplined run *)

Lemma counted_boot : counted boot.
Proof.
  split; simpl.
  - constructor.
  - by intros d ?%elem_of_nil.
  - intros l h. by rewrite lookup_empty.
Qed.

Lemma counted_new N l t w w' :
  t ∉ addresses (statics w) → step N (New l t) w = Some w' →
  counted w → counted w'.
Proof.
  simpl. intros Ht (this & s' & Hc & Hl & ->)%place_inv [Hnd Hent Hobj].
  assert (this = fst (Pointer_ctor N t (statics w)) ∧
          s' = snd (Pointer_ctor N t (statics w))) as [-> ->].
  { by injection Hc as <- <-. }
  clear Hc.
  assert (holders t (objects w) = 0%nat) as Hzero.
  { apply holders_none. intros l' h Hl' <-. apply Ht. by eapply Hobj. }
  split; cbn [statics objects].
  - rewrite Pointer_ctor_addresses. apply NoDup_app. split_and!; [done| |apply NoDup_singleton].
    by intros a Ha ->%list_elem_of_singleton.
  - intros d. simpl. rewrite live_handles_holders. cbn [objects].
    rewrite holders_insert_fresh by done. simpl.
    intros [Hd| ->%list_elem_of_singleton]%elem_of_app.
    + destruct (decide (t = memPtr d)) as [->|_].
      * destruct Ht. apply list_elem_of_fmap. eauto.
      * rewrite Nat.add_0_r. by apply Hent.
    + simpl. rewrite decide_True by done. rewrite Hzero. split; lia.
  - intros l' h. rewrite Pointer_ctor_addresses.
    destruct (decide (l = l')) as [<-|Hne].
    + rewrite lookup_insert_eq. intros [= <-]. simpl.
      apply elem_of_app. right. by left.
    + rewrite lookup_insert_ne by done. intros Hl'.
      apply elem_of_app. left. by eapply Hobj.
Qed.

Lemma to_unsigned_small z : is_unsigned z → to_unsigned z = z.
Proof. unfold is_unsigned, to_unsigned. intros H. by apply Z.mod_small. Qed.

Lemma holders_positive a m l h : m !! l = Some h → addr h = a → (0 < holders a m)%nat.
Proof.
  intros Hl Ha. rewrite (holders_delete a m l h Hl), decide_True by done. lia.
Qed.

Lemma counted_copy N l src w w' :
  Z.of_nat (base.size (objects w)) + 1 < UINT_MOD →
  step N (NewCopy l src) w = Some w' →
  counted w → counted w'.
Proof.
  simpl. intros Hsize Hstep [Hnd Hent Hobj].
  destruct (objects w !! src) as [obj|] eqn:Hsrc; [|done]. simpl in Hstep.
  apply place_inv in Hstep as (this & s' & Hc & Hl & ->).
  unfold Pointer_copy in Hc.
  destruct (through _ incr (statics w)) as [s1|] eqn:H1; [|done].
  simpl in Hc. injection Hc as <- <-.
  pose proof (through_addresses _ _ _ _ memPtr_incr H1) as Haddr.
  split; cbn [statics objects].
  - by rewrite Haddr.
  - intros e He. rewrite live_handles_holders. cbn [objects].
    rewrite holders_insert_fresh by done. cbn [addr].
    destruct (through_entries _ _ _ _ Hnd memPtr_incr H1 e He)
      as [(d & Hd & Hda & ->)|[Hein Hne]].
    + destruct (Hent d Hd) as [Hcount Hpos]. rewrite live_handles_holders in Hcount.
      rewrite memPtr_incr, Hda, decide_True by done.
      pose proof (holders_bound (addr obj) (objects w)) as Hb.
      rewrite Hda in Hcount.
      cbn [incr set_refCount refCount]. rewrite to_unsigned_small; [lia|].
      unfold is_unsigned. lia.
    + destruct (Hent e Hein) as [Hcount Hpos]. rewrite live_handles_holders in Hcount.
      rewrite decide_False by done. rewrite Nat.add_0_r. done.
  - intros l' h. rewrite Haddr. destruct (decide (l = l')) as [<-|Hne].
    + rewrite lookup_insert_eq. intros [= <-]. simpl. by eapply Hobj.
    + rewrite lookup_insert_ne by done. apply Hobj.
Qed.

Lemma addresses_list_remove p s :
  sublist (addresses (collect_next p s)) (addresses s).
Proof. unfold addresses. simpl. apply fmap_sublist, sublist_filter. Qed.

Lemma counted_delete N l w w' :
  Z.of_nat (base.size (objects w)) < UINT_MOD →
  step N (Delete l) w = Some w' →
  counted w → counted w'.
Proof.
  simpl. intros Hsize Hstep [Hnd Hent Hobj].
  destruct (objects w !! l) as [this|] eqn:Hl; [|done]. simpl in Hstep.
  destruct (Pointer_dtor this (statics w)) as [s'|] eqn:Hd; [|done].
  injection Hstep as <-.
  apply Pointer_dtor_releases in Hd as (mid & Hmid & _ & ->).
  unfold Pointer_dtor_unref in Hmid.
  set (a := addr this) in *. set (m' := delete l (objects w)).
  pose proof (through_addresses _ _ _ _ memPtr_unref Hmid) as Haddr.
  assert (holders a (objects w) = S (holders a m')) as Hk.
  { rewrite (holders_delete a _ l this Hl), decide_True by done. subst m'. lia. }
  (* the entries once the count has been lowered *)
  assert (∀ e, e ∈ refContainer mid →
               refCount e = Z.of_nat (holders (memPtr e) m') ∧
               (memPtr e ≠ a → 0 < refCount e)) as Hmident.
  { intros e He.
    destruct (through_entries _ _ _ _ Hnd memPtr_unref Hmid e He)
      as [(d & Hdin & Hda & ->)|[Hein Hne]].
    - destruct (Hent d Hdin) as [Hcount Hpos]. rewrite live_handles_holders, Hda, Hk in Hcount.
      rewrite decide_True by lia. rewrite memPtr_decr, Hda. split; [|done].
      cbn [decr set_refCount refCount]. rewrite Hcount.
      pose proof (holders_bound a (objects w)) as Hb.
      rewrite to_unsigned_small; [lia|]. unfold is_unsigned. lia.
    - destruct (Hent e Hein) as [Hcount Hpos]. rewrite live_handles_holders in Hcount.
      rewrite (holders_delete _ _ l this Hl), decide_False in Hcount by (fold a; congruence).
      rewrite Nat.add_0_r in Hcount. done. }
  assert (∀ l' h, m' !! l' = Some h → addr h ∈ addresses mid) as Hmidobj.
  { intros l' h [_ Hl']%lookup_delete_Some. rewrite Haddr. by eapply Hobj. }
  destruct (decide (holders a m' = 0)%nat) as [Hzero|Hpos].
  - (* the last handle on [a]: its entry goes *)
    destruct (first_unreferenced (refContainer mid)) as [p|] eqn:Hp.
    + pose proof Hp as [Hpin Hple]%first_unreferenced_Some.
      assert (memPtr p = a) as Hpa.
      { destruct (decide (memPtr p = a)) as [|Hne]; [done|].
        destruct (Hmident p Hpin) as [_ Hpp]. specialize (Hpp Hne). lia. }
      rewrite (collect_single p mid Hp).
      2:{ apply Forall_forall. intros e [Hein Hne]%list_remove_elem.
          destruct (Hmident e Hein) as [_ Hpp]. rewrite Hpa in Hne.
          specialize (Hpp Hne). lia. }
      split; cbn [statics objects snd].
      * eapply sublist_NoDup; [|apply addresses_list_remove]. by rewrite Haddr.
      * intros e [Hein Hne]%list_remove_elem. rewrite Hpa in Hne.
        destruct (Hmident e Hein) as [Hcount Hpp]. split; [done|by apply Hpp].
      * intros l' h Hl'. pose proof (Hmidobj l' h Hl') as Hin.
        apply list_elem_of_fmap in Hin as (e & He & Hein).
        apply list_elem_of_fmap. exists e. split; [done|].
        apply list_remove_elem. split; [done|]. rewrite Hpa, <- He.
        intros Ha. pose proof (holders_positive a m' l' h Hl' Ha). lia.
    + (* impossible: the entry of [a] has a count of zero *)
      apply first_unreferenced_None in Hp. rewrite Forall_forall in Hp.
      destruct (through_tracked_same _ _ _ _ memPtr_unref Hmid) as (d & _ & _ & _ & Hafter).
      apply tracked_count_Some in Hafter as (e & Hein & Hea & _).
      destruct (Hmident e Hein) as [Hcount _]. specialize (Hp e Hein).
      rewrite Hea, Hzero in Hcount. lia.
  - (* other handles on [a] remain: nothing to collect *)
    rewrite collect_nothing_to_do.
    2:{ apply Forall_forall. intros e Hein. destruct (Hmident e Hein) as [Hcount Hpp].
        destruct (decide (memPtr e = a)) as [Hea|Hne]; [rewrite Hea in Hcount; lia|].
        specialize (Hpp Hne). lia. }
    split; cbn [statics objects snd].
    + by rewrite Haddr.
    + intros e Hein. destruct (Hmident e Hein) as [Hcount Hpp]. split; [done|].
      destruct (decide (memPtr e = a)) as [Hea|Hne]; [rewrite Hea in Hcount; lia|].
      by apply Hpp.
    + done.
Qed.

Lemma step_objects_size N o w w' :
  step N o w = Some w' → (base.size (objects w') <= S (base.size (objects w)))%nat.
Proof.
  assert (∀ (l : nat) (h : Pointer) (m : gmap nat Pointer),
            (base.size (<[l := h]> m) <= S (base.size m))%nat) as Hins.
  { intros l h m. destruct (m !! l) eqn:E.
    - rewrite map_size_insert_Some by eauto. lia.
    - rewrite map_size_insert_None by done. lia. }
  destruct o as [l t|l uninit|l src|l|junk l t|l r| |]; simpl; intros H.
  - apply place_inv in H as (this & s' & _ & _ & ->). apply Hins.
  - apply place_inv in H as (this & s' & _ & _ & ->). apply Hins.
  - destruct (objects w !! src); [|done].
    apply place_inv in H as (this & s' & _ & _ & ->). apply Hins.
  - destruct (objects w !! l) as [this|] eqn:Hl; [|done]. simpl in H.
    destruct (Pointer_dtor this (statics w)); [|done]. injection H as <-. simpl.
    rewrite map_size_delete_Some by eauto. lia.
  - unfold op_assign_raw in H. destruct (objects w !! l); [|done]. simpl in H.
    destruct (assign_raw _ _ _ _ _) as [[[? ?] ?]|]; [|done]. injection H as <-. apply Hins.
  - unfold op_assign in H. destruct (objects w !! l); [|done]. simpl in H.
    destruct (objects w !! r); [|done]. simpl in H.
    destruct (assign_ptr _ _ _) as [[? ?]|]; [|done]. injection H as <-. apply Hins.
  - injection H as <-. simpl. lia.
  - injection H as <-. simpl. lia.
Qed.

Lemma run_counted N ops w w' :
  Z.of_nat (base.size (objects w) + length ops) < UINT_MOD →
  disciplined N ops w = true → run N ops w = Some w' →
  counted w → counted w'.
Proof.
  revert w. induction ops as [|o ops IH]; intros w Hsize Hd Hr Hw; simpl in *.
  - by injection Hr as <-.
  - destruct (step N o w) as [w1|] eqn:Hstep; [|done]. simpl in Hr.
    apply andb_true_iff in Hd as [Ho Hd].
    pose proof (step_objects_size _ _ _ _ Hstep) as Hgrow.
    apply (IH w1); [lia|done..|].
    destruct o as [l t|l uninit|l src|l|junk l t|l r| |]; try done.
    + apply bool_decide_eq_true in Ho. by eapply counted_new.
    + eapply counted_copy; [|exact Hstep|done]. lia.
    + eapply counted_delete; [|exact Hstep|done]. lia.
Qed.

(** X11: on a run from program start that constructs, copies and destroys
    handles and constructs from a raw address only while that address has
    no entry, the count the registry holds for an address is the number of
    live handles on it, and an address without an entry has none.  The run
    has fewer than [2^32] steps. *)
Theorem counts_match_live_handles (N : Z) (ops : list op) (w : World) (a : Z) :
  Z.of_nat (length ops) < UINT_MOD →
  disciplined N ops boot = true →
  run N ops boot = Some w →
  match tracked_count a (statics w) with
  | Some n => n = Z.of_nat (live_handles a w)
  | None => live_handles a w = 0%nat
  end.
Proof.
  intros Hlen Hd Hr.
  destruct (run_counted N ops boot w) as [Hnd Hent Hobj]; [|done..|apply counted_boot|].
  { simpl. rewrite map_size_empty. lia. }
  destruct (tracked_count a (statics w)) as [n|] eqn:Ht.
  - apply tracked_count_Some in Ht as (d & Hd' & <- & <-). by apply Hent.
  - apply tracked_count_None in Ht. apply holders_none.
    intros l h Hl <-. apply Ht. by eapply Hobj.
Qed.

Lemma counts_match_live_handles_witness :
  let w := {| statics := mkStatics [mkPtrDetails 2 5 false 0; mkPtrDetails 1 6 false 0]
                                   false 1 [mkRelease 7 false];
              objects := <[3%nat := mkPointer 6 false 0]>
                           (<[1%nat := mkPointer 5 false 0]>
                              {[ 0%nat := mkPointer 5 false 0 ]}) |} in
  match tracked_count 5 (statics w) with
  | Some n => n = Z.of_nat (live_handles 5 w)
  | None => live_handles 5 w = 0%nat
  end.
Proof.
  apply (counts_match_live_handles 0 [New 0 5; NewCopy 1 0; New 2 7; New 3 6; Delete 2]
           {| statics := mkStatics [mkPtrDetails 2 5 false 0; mkPtrDetails 1 6 false 0]
                                   false 1 [mkRelease 7 false];
              objects := <[3%nat := mkPointer 6 false 0]>
                           (<[1%nat := mkPointer 5 false 0]>
                              {[ 0%nat := mkPointer 5 false 0 ]}) |} 5).
  - vm_compute. reflexivity.
  - vm_compute. reflexivity.
  - vm_compute. reflexivity.
Defined.

(** Under the invariant a copy or a destruction of a live handle does not
    go through [end()]. *)
Lemma counted_no_end N w l src obj :
  counted w → objects w !! src = Some obj → objects w !! l = None →
  is_Some (step N (NewCopy l src) w) ∧ is_Some (step N (Delete src) w).
Proof.
  intros [Hnd Hent Hobj] Hsrc Hl. simpl. rewrite Hsrc. simpl.
  pose proof (Hobj src obj Hsrc) as Hreg. split.
  - unfold place, Pointer_copy. rewrite Hl.
    destruct (through_registered (addr obj) incr (statics w) Hreg) as [s' ->]. by eexists.
  - unfold Pointer_dtor, Pointer_dtor_unref.
    destruct (through_registered (addr obj)
                (λ d, if decide (refCount d ≠ 0) then decr d else d) (statics w) Hreg)
      as [s' ->]. by eexists.
Qed.

(** * More of gc_pointer.h *)

(** ** Lookup *)

(** X1: [findPtrInfo(ptr)] returns the position of the first entry whose
    [memPtr] is [ptr]: the entry there has that address and no entry before
    it has; it returns [end()] exactly when no entry has the address. *)
Theorem findPtrInfo_first_match (a : Z) (s : Statics) :
  match findPtrInfo a s with
  | Some i =>
      ∃ d, refContainer s !! i = Some d ∧ memPtr d = a ∧
           ∀ j e, refContainer s !! j = Some e → (j < i)%nat → memPtr e ≠ a
  | None => ∀ d, d ∈ refContainer s → memPtr d ≠ a
  end.
Proof.
  destruct (findPtrInfo a s) as [i|] eqn:H.
  - by apply findPtrInfo_Some.
  - apply findPtrInfo_None in H. intros d Hd Ha. apply H.
    apply list_elem_of_fmap. eauto.
Qed.

(** ** The whole of [collect()] *)

Lemma unreferenced_addresses_elem a s :
  a ∈ unreferenced_addresses s ↔
  ∃ d, d ∈ refContainer s ∧ ¬ (refCount d > 0) ∧ memPtr d = a.
Proof.
  unfold unreferenced_addresses. rewrite list_elem_of_fmap. split.
  - intros (d & -> & [Hz Hd]%list_elem_of_filter). eauto.
  - intros (d & Hd & Hz & <-). exists d. split; [done|].
    by apply list_elem_of_filter.
Qed.

Lemma unreferenced_addresses_nil s :
  unreferenced_addresses s = [] ↔ first_unreferenced (refContainer s) = None.
Proof.
  rewrite first_unreferenced_None, Forall_forall. split.
  - intros Hnil d Hd. destruct (decide (refCount d > 0)) as [|Hz]; [done|].
    assert (memPtr d ∈ unreferenced_addresses s) as Hin
      by (apply unreferenced_addresses_elem; eauto).
    rewrite Hnil in Hin. by apply elem_of_nil in Hin.
  - intros Hpos. destruct (unreferenced_addresses s) as [|a l] eqn:E; [done|].
    assert (a ∈ unreferenced_addresses s) as Hin by (rewrite E; by left).
    apply unreferenced_addresses_elem in Hin as (d & Hd & Hz & _).
    destruct Hz. by apply Hpos.
Qed.

Lemma unreferenced_addresses_next p s a :
  first_unreferenced (refContainer s) = Some p →
  (a ∉ unreferenced_addresses s) ↔
  (a ∉ unreferenced_addresses (collect_next p s)) ∧ a ≠ memPtr p.
Proof.
  intros [Hp Hz]%first_unreferenced_Some.
  rewrite !unreferenced_addresses_elem. split.
  - intros Hno. split.
    + intros (d & [Hd _]%list_remove_elem & Hdz & Hda). apply Hno. eauto.
    + intros ->. apply Hno. exists p. split_and!; [done|lia|done].
  - intros [Hno Hne] (d & Hd & Hdz & Hda). apply Hno. exists d.
    split_and!; [|done..]. simpl. apply list_remove_elem. split; [done|congruence].
Qed.

Lemma filter_keeps_all {A} (P : A → Prop) `{!∀ x, Decision (P x)} (l : list A) :
  Forall P l → filter P l = l.
Proof.
  induction 1 as [|x l Hx _ IH]; [done|].
  by rewrite filter_cons, decide_True, IH.
Qed.

Lemma collect_loop_survivors b s :
  refContainer (snd (collect_loop b s)) = survivors s.
Proof.
  apply (collect_loop_rounds (λ _ s r, refContainer r.2 = survivors s)).
  - intros b0 s' Hnone. simpl. unfold survivors.
    apply unreferenced_addresses_nil in Hnone. rewrite Hnone.
    symmetry. apply filter_keeps_all, Forall_forall. intros d _. apply not_elem_of_nil.
  - intros _ s' p Hp ->. unfold survivors.
    cbn [collect_next refContainer]. unfold list_remove.
    rewrite list_filter_filter. apply list_filter_iff. intros d.
    rewrite (unreferenced_addresses_next p s' _ Hp). unfold PtrDetails_eq. tauto.
Qed.

(** X2: what [collect()] leaves and what it returns.  The entries left are
    those whose address is not the address of any entry with a count of
    zero, in their order and unchanged: an entry that shares its address
    with a zero-count entry goes with it, whatever its own count.  The
    result is [true] exactly when some entry had a count that is not
    positive. *)
Theorem collect_survivors (s : Statics) :
  refContainer (snd (collect s)) = survivors s ∧
  (∀ d, d ∈ survivors s ↔
        d ∈ refContainer s ∧
        ∀ e, e ∈ refContainer s → memPtr e = memPtr d → refCount e > 0) ∧
  (fst (collect s) = true ↔ ∃ d, d ∈ refContainer s ∧ ¬ (refCount d > 0)) ∧
  first (snd (collect s)) = first s ∧
  exit_hooks (snd (collect s)) = exit_hooks s.
Proof.
  split; [apply collect_loop_survivors|]. split.
  { intros d. unfold survivors. rewrite list_elem_of_filter, unreferenced_addresses_elem.
    split.
    - intros [Hno Hd]. split; [done|]. intros e He Hea.
      destruct (decide (refCount e > 0)) as [|Hz]; [done|]. destruct Hno; eauto.
    - intros [Hd Hall]. split; [|done]. intros (e & He & Hz & Hea). by apply Hz, Hall. }
  split; [|apply collect_loop_frame].
  unfold collect. rewrite collect_loop_flag.
  destruct (first_unreferenced (refContainer s)) as [p|] eqn:Hp.
  - apply first_unreferenced_Some in Hp as [Hin Hz]. split; [|done].
    intros _. exists p. split; [done|lia].
  - split; [done|]. intros (d & Hd & Hz).
    apply first_unreferenced_None in Hp. rewrite Forall_forall in Hp.
    destruct Hz. by apply Hp.
Qed.

(** X3: [collect()] right after [collect()] finds nothing: it returns
    [false] and leaves the statics as the first call left them, whatever
    the registry was before the first call. *)
Theorem collect_twice (s : Statics) :
  collect (snd (collect s)) = (false, snd (collect s)).
Proof. apply collect_nothing_to_do, collect_loop_positive. Qed.

Lemma collect_loop_releases_all b s :
  ∃ new, released (snd (collect_loop b s)) = released s ++ new ∧
         ∀ a, a ∈ unreferenced_addresses s → a ≠ nullptr → a ∈ rel_addr <$> new.
Proof.
  apply (collect_loop_rounds
    (λ _ s r, ∃ new, released r.2 = released s ++ new ∧
                     ∀ a, a ∈ unreferenced_addresses s → a ≠ nullptr →
                          a ∈ rel_addr <$> new)).
  - intros b0 s' Hnone. exists []. simpl. rewrite app_nil_r. split; [done|].
    apply unreferenced_addresses_nil in Hnone. rewrite Hnone.
    by intros a ?%elem_of_nil.
  - intros _ s' p Hp (new & Hlog & Hall).
    cbn [collect_next released] in Hlog. rewrite release_log, <- app_assoc in Hlog.
    eexists. split; [exact Hlog|]. intros a Ha Hnn. rewrite fmap_app.
    apply elem_of_app. destruct (decide (a = memPtr p)) as [->|Hne].
    + left. rewrite decide_False by done. by left.
    + right. apply Hall; [|done].
      destruct (decide (a ∈ unreferenced_addresses (collect_next p s'))) as [|Hno]; [done|].
      destruct (proj2 (unreferenced_addresses_next p s' a Hp) (conj Hno Hne)). done.
Qed.

Lemma collect_releases_parts s :
  ∃ new, released (snd (collect s)) = released s ++ new ∧
         NoDup (rel_addr <$> new) ∧
         (∀ a, a ∈ rel_addr <$> new ↔ a ≠ nullptr ∧ a ∈ unreferenced_addresses s) ∧
         (∀ r, r ∈ new →
               ∃ p, p ∈ refContainer s ∧ memPtr p = rel_addr r ∧
                    ¬ (refCount p > 0) ∧ rel_array r = isArray p).
Proof.
  destruct (collect_loop_releases false s) as (new & Hlog & Hnd & Hsound).
  destruct (collect_loop_releases_all false s) as (new' & Hlog' & Hall).
  assert (new' = new) as -> by (eapply app_inv_head; by rewrite <- Hlog, <- Hlog').
  exists new. split_and!; [done..| |].
  - intros a. split.
    + intros (r & -> & Hr)%list_elem_of_fmap.
      destruct (Hsound r Hr) as (Hnn & p & Hp & Hpa & Hz & _). split; [done|].
      apply unreferenced_addresses_elem. exists p. split_and!; [done|lia|done].
    + intros [Hnn Ha]. by apply Hall.
  - intros r Hr. destruct (Hsound r Hr) as (_ & p & Hp & Hpa & Hz & Hmode).
    exists p. split_and!; [done..|lia|done].
Qed.

(** X4: the releases of one [collect()].  It releases each address that is
    not null and has an entry with a count of zero, once, and nothing
    else; null is never released.  Each release is a [delete[]] or a
    [delete] as the [isArray] of a zero-count entry of that address says. *)
Theorem collect_releases_exactly (s : Statics) :
  ∃ new, released (snd (collect s)) = released s ++ new ∧
         NoDup (rel_addr <$> new) ∧
         (∀ a, a ∈ rel_addr <$> new ↔ a ≠ nullptr ∧ a ∈ unreferenced_addresses s) ∧
         (∀ r, r ∈ new →
               ∃ p, p ∈ refContainer s ∧ memPtr p = rel_addr r ∧
                    ¬ (refCount p > 0) ∧ rel_array r = isArray p).
Proof. apply collect_releases_parts. Qed.

(** ** [shutdown()] *)

Lemma unreferenced_addresses_zero_counts s :
  ∀ a, a ∈ unreferenced_addresses (zero_counts s) ↔ a ∈ addresses s.
Proof.
  intros a. rewrite unreferenced_addresses_elem. unfold addresses. simpl.
  rewrite list_elem_of_fmap. split.
  - intros (d & (e & -> & He)%list_elem_of_fmap & _ & <-). exists e. done.
  - intros (e & -> & He). exists (set_refCount 0 e). split_and!; [|simpl; lia|done].
    apply list_elem_of_fmap. eauto.
Qed.

Lemma shutdown_collects_zeroed s :
  Z.of_nat (length (refContainer s)) <= INT_MAX →
  shutdown s = snd (collect (zero_counts s)).
Proof.
  intros Hlen. unfold shutdown. case_decide as Hz; [|done].
  apply refContainerSize_zero in Hz; [|done].
  rewrite collect_nothing_to_do.
  - destruct s; simpl in *. by subst.
  - simpl. rewrite Hz. constructor.
Qed.

(** X5: [shutdown()] releases every address that has an entry and is not
    null, each once, whatever the counts were, and releases nothing else;
    a second [shutdown()] changes nothing.  The number of entries is one
    that the [int] of [refContainerSize()] holds. *)
Theorem shutdown_releases_all (s : Statics) :
  Z.of_nat (length (refContainer s)) <= INT_MAX →
  (∃ new, released (shutdown s) = released s ++ new ∧
          NoDup (rel_addr <$> new) ∧
          ∀ a, a ∈ rel_addr <$> new ↔ a ≠ nullptr ∧ a ∈ addresses s) ∧
  first (shutdown s) = first s ∧
  exit_hooks (shutdown s) = exit_hooks s ∧
  shutdown (shutdown s) = shutdown s.
Proof.
  intros Hlen.
  pose proof (shutdown_collects_zeroed s Hlen) as Hs.
  split_and!.
  - rewrite Hs.
    destruct (collect_releases_parts (zero_counts s)) as (new & Hlog & Hnd & Hiff & _).
    exists new. split_and!; [done..|].
    intros a. rewrite Hiff. by rewrite unreferenced_addresses_zero_counts.
  - rewrite Hs. unfold collect.
    by destruct (collect_loop_frame false (zero_counts s)) as [-> _].
  - rewrite Hs. unfold collect.
    by destruct (collect_loop_frame false (zero_counts s)) as [_ ->].
  - unfold shutdown at 1. rewrite decide_True; [done|].
    unfold refContainerSize. rewrite Hs.
    by rewrite (collect_clears_zero_counts _ (zero_counts_all_zero s)).
Qed.

Lemma shutdown_releases_all_witness :
  let s := mkStatics [mkPtrDetails 2 5 false 0; mkPtrDetails 0 6 true 3;
                      mkPtrDetails 1 0 false 0; mkPtrDetails 1 5 false 0]
                     false 1 [mkRelease 9 false] in
  (∃ new, released (shutdown s) = released s ++ new ∧
          NoDup (rel_addr <$> new) ∧
          ∀ a, a ∈ rel_addr <$> new ↔ a ≠ nullptr ∧ a ∈ addresses s) ∧
  first (shutdown s) = first s ∧
  exit_hooks (shutdown s) = exit_hooks s ∧
  shutdown (shutdown s) = shutdown s.
Proof.
  apply (shutdown_releases_all
           (mkStatics [mkPtrDetails 2 5 false 0; mkPtrDetails 0 6 true 3;
                       mkPtrDetails 1 0 false 0; mkPtrDetails 1 5 false 0]
                      false 1 [mkRelease 9 false])).
  vm_compute. intros H. discriminate H.
Defined.

(** ** The exit hook *)

Lemma Pointer_dtor_frame this s s' :
  Pointer_dtor this s = Some s' → first s' = first s ∧ exit_hooks s' = exit_hooks s.
Proof.
  intros (mid & Hmid & _ & ->)%Pointer_dtor_releases.
  unfold Pointer_dtor_unref in Hmid. apply through_frame in Hmid as (_ & <- & <- & _).
  apply collect_loop_frame.
Qed.

Lemma step_first N o w w' :
  step N o w = Some w' →
  first (statics w') = first (statics w) && negb (constructs o) ∧
  exit_hooks (statics w')
  = (exit_hooks (statics w) + (if first (statics w) && constructs o then 1 else 0))%nat.
Proof.
  intros H%step_statics.
  destruct o as [l t|l uninit|l src|l|junk l t|l r| |]; cbn [constructs negb];
    rewrite ?andb_true_r, ?andb_false_r, ?Nat.add_0_r.
  - rewrite H. simpl. destruct (first (statics w)); split; lia || done.
  - destruct H as (this & H). unfold Pointer_default in H.
    destruct (Pointer_ctor N nullptr (statics w)) as [temporary s1] eqn:Hc.
    destruct (Pointer_dtor temporary s1) as [s2|] eqn:Hd; [|done].
    simpl in H. injection H as _ <-.
    apply Pointer_dtor_frame in Hd as [-> ->].
    replace s1 with (snd (Pointer_ctor N nullptr (statics w))) by by rewrite Hc.
    simpl. destruct (first (statics w)); split; lia || done.
  - destruct H as (obj & c & H). unfold Pointer_copy in H.
    destruct (through _ _ (statics w)) as [s1|] eqn:H1; [|done].
    simpl in H. injection H as _ <-. by apply through_frame in H1 as (_ & -> & -> & _).
  - destruct H as (this & H). by apply Pointer_dtor_frame in H as [-> ->].
  - destruct H as (this & ret & this' & H).
    apply assign_raw_inv in H as (_ & _ & s1 & H1 & Hs').
    apply through_frame in H1 as (_ & <- & <- & _).
    by destruct Hs' as [(i & _ & ->)|(_ & ->)].
  - destruct H as (this & rv & this' & H).
    apply assign_ptr_inv in H as (_ & s1 & H1 & H2).
    apply through_frame in H1 as (_ & <- & <- & _).
    by apply through_frame in H2 as (_ & -> & -> & _).
  - rewrite H. apply collect_loop_frame.
  - rewrite H. unfold shutdown. case_decide; [done|].
    apply (collect_loop_frame false (zero_counts (statics w))).
Qed.

Lemma run_first N ops w w' :
  run N ops w = Some w' →
  first (statics w') = first (statics w) && negb (existsb constructs ops) ∧
  exit_hooks (statics w')
  = (exit_hooks (statics w)
     + (if first (statics w) && existsb constructs ops then 1 else 0))%nat.
Proof.
  revert w. induction ops as [|o ops IH]; intros w Hr; simpl in *.
  - injection Hr as <-. rewrite andb_true_r, andb_false_r. split; [done|lia].
  - destruct (step N o w) as [w1|] eqn:Hstep; [|done]. simpl in Hr.
    destruct (IH w1 Hr) as [-> ->].
    destruct (step_first _ _ _ _ Hstep) as [-> ->].
    destruct (first (statics w)), (constructs o), (existsb constructs ops); simpl; split; lia || done.
Qed.

(** X6: [shutdown] is registered with [atexit] once for an instantiation,
    by the first [Pointer(T* t)] that runs: after a run from program
    start [atexit] has been called once if the run constructed a handle
    from a raw address or by default, and not at all otherwise, and
    [first] is [false] exactly in the former case. *)
Theorem atexit_once (N : Z) (ops : list op) (w : World) :
  run N ops boot = Some w →
  exit_hooks (statics w) = (if existsb constructs ops then 1 else 0)%nat ∧
  first (statics w) = negb (existsb constructs ops).
Proof. intros Hr. by destruct (run_first N ops boot w Hr) as [-> ->]. Qed.

Lemma atexit_once_witness :
  let w := {| statics := mkStatics [mkPtrDetails 1 5 false 0; mkPtrDetails 1 6 false 0]
                                   false 1 [mkRelease 7 false];
              objects := <[3%nat := mkPointer 6 false 0]>
                           {[ 0%nat := mkPointer 5 false 0 ]} |} in
  exit_hooks (statics w)
  = (if existsb constructs [New 0 5; NewCopy 1 0; New 2 7; New 3 6; Delete 2; Delete 1]
     then 1 else 0)%nat ∧
  first (statics w)
  = negb (existsb constructs [New 0 5; NewCopy 1 0; New 2 7; New 3 6; Delete 2; Delete 1]).
Proof.
  apply (atexit_once 0 [New 0 5; NewCopy 1 0; New 2 7; New 3 6; Delete 2; Delete 1]
           {| statics := mkStatics [mkPtrDetails 1 5 false 0; mkPtrDetails 1 6 false 0]
                                   false 1 [mkRelease 7 false];
              objects := <[3%nat := mkPointer 6 false 0]>
                           {[ 0%nat := mkPointer 5 false 0 ]} |}).
  vm_compute. reflexivity.
Defined.

(** ** Copy construction *)

Lemma tracked_count_registered a s : a ∈ addresses s → is_Some (tracked_count a s).
Proof.
  intros [i Hi]%findPtrInfo_is_Some. unfold tracked_count. rewrite Hi. simpl.
  apply findPtrInfo_Some in Hi as (d & -> & _). by eexists.
Qed.

(** X7: copying a handle whose address has an entry gives a handle with
    the same three members, raises the count of the entry [findPtrInfo]
    finds for that address by one (modulo [2^32]) and changes nothing
    else: no entry is added or moved, the other counts, the release log
    and the exit hook stay. *)
Theorem copy_increments_one_count (obj : Pointer) (s : Statics) :
  addr obj ∈ addresses s →
  ∃ s' n, Pointer_copy obj s = Some (obj, s') ∧
          tracked_count (addr obj) s = Some n ∧
          tracked_count (addr obj) s' = Some (to_unsigned (n + 1)) ∧
          (∀ b, b ≠ addr obj → tracked_count b s' = tracked_count b s) ∧
          addresses s' = addresses s ∧
          released s' = released s ∧
          first s' = first s ∧ exit_hooks s' = exit_hooks s.
Proof.
  intros Hreg.
  destruct (through_registered (addr obj) incr s Hreg) as [s' H1].
  destruct (through_tracked_same _ _ _ _ memPtr_incr H1) as (d & _ & _ & Hn & Hn').
  exists s', (refCount d). split_and!; try done.
  - unfold Pointer_copy. rewrite H1. simpl. by destruct obj.
  - intros b Hb. by apply (through_tracked_other (addr obj) b incr s s'); auto with registry.
  - exact (through_addresses _ _ _ _ memPtr_incr H1).
  - by apply through_frame in H1 as (-> & _).
  - by apply through_frame in H1 as (_ & -> & _).
  - by apply through_frame in H1 as (_ & _ & -> & _).
Qed.

Lemma copy_increments_one_count_witness :
  let obj := mkPointer 6 true 3 in
  let s := mkStatics [mkPtrDetails 1 5 true 3; mkPtrDetails 2 6 true 3] false 1 [] in
  ∃ s' n, Pointer_copy obj s = Some (obj, s') ∧
          tracked_count (addr obj) s = Some n ∧
          tracked_count (addr obj) s' = Some (to_unsigned (n + 1)) ∧
          (∀ b, b ≠ addr obj → tracked_count b s' = tracked_count b s) ∧
          addresses s' = addresses s ∧
          released s' = released s ∧
          first s' = first s ∧ exit_hooks s' = exit_hooks s.
Proof.
  apply (copy_increments_one_count (mkPointer 6 true 3)
           (mkStatics [mkPtrDetails 1 5 true 3; mkPtrDetails 2 6 true 3] false 1 [])).
  vm_compute. right. left.
Defined.

(** ** Handles whose address has no entry *)

Lemma through_unregistered a f s : a ∉ addresses s → through (findPtrInfo a s) f s = None.
Proof. intros Ha%findPtrInfo_None. unfold through. by rewrite Ha. Qed.

(** X8: no member function checks what [findPtrInfo] returns before it
    goes through it, except [operator=] for the raw address assigned.  For
    a handle whose address has no entry, the copy constructor, the
    destructor and both assignments go through [end()]; so does the
    assignment of such a handle to a registered one. *)
Theorem unregistered_address_goes_through_end (N : Z) (this : Pointer) (s : Statics) :
  addr this ∉ addresses s →
  Pointer_copy this s = None ∧
  Pointer_dtor this s = None ∧
  (∀ junk t, assign_raw N junk this t s = None) ∧
  (∀ rv, assign_ptr this rv s = None) ∧
  (∀ lhs, assign_ptr lhs this s = None).
Proof.
  intros Hno. split_and!.
  - unfold Pointer_copy. by rewrite through_unregistered.
  - unfold Pointer_dtor, Pointer_dtor_unref. by rewrite through_unregistered.
  - intros junk t. unfold assign_raw. by rewrite through_unregistered.
  - intros rv. unfold assign_ptr. by rewrite through_unregistered.
  - intros lhs. unfold assign_ptr.
    destruct (through (findPtrInfo (addr lhs) s) decr s) as [s1|] eqn:H1; [|done].
    simpl. rewrite through_unregistered; [done|].
    by rewrite (through_addresses _ _ _ _ memPtr_decr H1).
Qed.

Lemma unregistered_address_goes_through_end_witness :
  let this := mkPointer 7 false 0 in
  let s := mkStatics [mkPtrDetails 1 5 false 0] false 1 [mkRelease 7 false] in
  Pointer_copy this s = None ∧
  Pointer_dtor this s = None ∧
  (∀ junk t, assign_raw 0 junk this t s = None) ∧
  (∀ rv, assign_ptr this rv s = None) ∧
  (∀ lhs, assign_ptr lhs this s = None).
Proof.
  apply (unregistered_address_goes_through_end 0 (mkPointer 7 false 0)
           (mkStatics [mkPtrDetails 1 5 false 0] false 1 [mkRelease 7 false])).
  vm_compute. intros [H|H]%elem_of_cons; [discriminate H|by apply elem_of_nil in H].
Defined.

(** ** Decrements at zero, and assignment to itself *)

Lemma alter_fixed {A} (f : A → A) (l : list A) i d :
  l !! i = Some d → f d = d → alter f i l = l.
Proof.
  intros Hd Hf. apply list_eq. intros j. destruct (decide (i = j)) as [<-|Hne].
  - rewrite list_lookup_alter_eq, Hd. simpl. by rewrite Hf.
  - by rewrite list_lookup_alter_ne.
Qed.

Lemma set_refContainer_same s : set_refContainer (refContainer s) s = s.
Proof. by destruct s. Qed.

Lemma tracked_count_entry a s n :
  tracked_count a s = Some n →
  ∃ i d, findPtrInfo a s = Some i ∧ refContainer s !! i = Some d ∧
         memPtr d = a ∧ refCount d = n.
Proof.
  unfold tracked_count. intros H.
  destruct (findPtrInfo a s) as [i|] eqn:Hi; [|done]. simpl in H.
  pose proof Hi as (d & Hd & Ha & _)%findPtrInfo_Some.
  rewrite Hd in H. injection H as <-. eauto 10.
Qed.

(** The old target's count after an assignment of another raw address is
    the one the decrement left. *)
Lemma assign_raw_old_target N junk this t s ret this' s' :
  assign_raw N junk this t s = Some (ret, this', s') → t ≠ addr this →
  ∃ s1, through (findPtrInfo (addr this) s) decr s = Some s1 ∧
        tracked_count (addr this) s' = tracked_count (addr this) s1.
Proof.
  intros (_ & _ & s1 & H1 & Hs')%assign_raw_inv Hne. exists s1. split; [done|].
  destruct Hs' as [(i & Hi & ->)|(Hnone & ->)].
  - assert (through (findPtrInfo t s1) incr s1
            = Some (set_refContainer (alter incr i (refContainer s1)) s1)) as Ht.
    { unfold through. rewrite Hi. simpl.
      apply findPtrInfo_Some in Hi as (d & -> & _). done. }
    by apply (through_tracked_other t (addr this) incr s1 _); auto with registry.
  - apply tracked_count_push_back.
    rewrite (through_addresses _ _ _ _ memPtr_decr H1).
    apply findPtrInfo_is_Some.
    apply through_findPtrInfo in H1 as (i & ? & -> & _). by eexists.
Qed.

Lemma assign_raw_nodup N junk this t s ret this' s' :
  assign_raw N junk this t s = Some (ret, this', s') →
  NoDup (addresses s) → NoDup (addresses s').
Proof.
  intros (_ & _ & s1 & H1 & Hs')%assign_raw_inv Hnd.
  pose proof (through_addresses _ _ _ _ memPtr_decr H1) as Ha.
  destruct Hs' as [(i & _ & ->)|(Hnone & ->)].
  - by rewrite addresses_alter, Ha by auto with registry.
  - apply findPtrInfo_None in Hnone. unfold addresses in *. simpl.
    rewrite fmap_app, Ha. apply NoDup_app. split_and!; [done| |apply NoDup_singleton].
    intros a Hin ->%list_elem_of_singleton. apply Hnone. by rewrite Ha.
Qed.

(** X9: the destructor lowers a count only when it is not zero, the
    assignments lower it without looking.  For a handle whose entry has a
    count of zero the first two statements of the destructor change
    nothing, while assigning it another raw address takes the old entry's
    count from [0] to [2^32 - 1], and the old entry (the only one of its
    address) is then still there after [collect()]. *)
Theorem decrement_at_zero (N junk : Z) (this : Pointer) (t : Z) (s : Statics) :
  NoDup (addresses s) →
  tracked_count (addr this) s = Some 0 →
  t ≠ addr this →
  Pointer_dtor_unref this s = Some s ∧
  ∃ s', assign_raw N junk this t s = Some (t, set_addr t this, s') ∧
        tracked_count (addr this) s' = Some (UINT_MOD - 1) ∧
        addr this ∈ addresses (snd (collect s')).
Proof.
  intros Hnd Hzero Hne.
  destruct (tracked_count_entry _ _ _ Hzero) as (i & d & Hi & Hd & Hda & Hdz).
  split.
  - unfold Pointer_dtor_unref, through. rewrite Hi. simpl. rewrite Hd. simpl.
    rewrite (alter_fixed _ _ i d Hd); [by rewrite set_refContainer_same|].
    rewrite decide_False; [done|]. rewrite Hdz. tauto.
  - assert (addr this ∈ addresses s) as Hreg by (apply findPtrInfo_is_Some; eauto).
    destruct (through_registered (addr this) decr s Hreg) as [s1 H1].
    destruct (through_tracked_same _ _ _ _ memPtr_decr H1) as (d' & _ & _ & Hb & Ha).
    assert (refCount d' = 0) as Hd'z by congruence.
    assert (tracked_count (addr this) s1 = Some (UINT_MOD - 1)) as Hs1.
    { rewrite Ha. f_equal. simpl. by rewrite Hd'z. }
    destruct (assign_raw N junk this t s) as [[[ret this'] s']|] eqn:Hassign.
    2:{ unfold assign_raw in Hassign. by rewrite H1 in Hassign. }
    pose proof Hassign as (-> & -> & _)%assign_raw_inv.
    exists s'. split; [done|].
    assert (tracked_count (addr this) s' = Some (UINT_MOD - 1)) as Hs'.
    { destruct (assign_raw_old_target _ _ _ _ _ _ _ _ Hassign Hne) as (s1' & H1' & Hc).
      assert (s1' = s1) as -> by congruence. by rewrite Hc. }
    split; [done|].
    pose proof (assign_raw_nodup _ _ _ _ _ _ _ _ Hassign Hnd) as Hnd'.
    destruct (tracked_count_entry _ _ _ Hs') as (j & e & _ & He & Hea & Hez).
    apply list_elem_of_lookup_2 in He.
    apply list_elem_of_fmap. exists e. split; [done|].
    unfold collect. rewrite collect_loop_survivors.
    apply list_elem_of_filter. split; [|done].
    intros (z & Hz & Hzz & Hza)%unreferenced_addresses_elem.
    assert (z = e) as -> by (apply (unique_entry s'); done).
    apply Hzz. rewrite Hez. done.
Qed.

Lemma decrement_at_zero_witness :
  let this := mkPointer 5 false 0 in
  let s := mkStatics [mkPtrDetails 0 5 false 0; mkPtrDetails 1 6 false 0] false 1 [] in
  Pointer_dtor_unref this s = Some s ∧
  ∃ s', assign_raw 0 0 this 6 s = Some (6, set_addr 6 this, s') ∧
        tracked_count (addr this) s' = Some (UINT_MOD - 1) ∧
        addr this ∈ addresses (snd (collect s')).
Proof.
  apply (decrement_at_zero 0 0 (mkPointer 5 false 0) 6
           (mkStatics [mkPtrDetails 0 5 false 0; mkPtrDetails 1 6 false 0] false 1 [])).
  - vm_compute. apply NoDup_cons. split.
    + intros [H|H]%elem_of_cons; [discriminate H|by apply elem_of_nil in H].
    + apply NoDup_singleton.
  - reflexivity.
  - vm_compute. discriminate.
Defined.

Lemma incr_decr d : is_unsigned (refCount d) → incr (decr d) = d.
Proof.
  intros Hu. destruct d as [c m a n]. unfold incr, decr, set_refCount. simpl in *.
  f_equal. unfold to_unsigned, is_unsigned, UINT_MOD in *.
  rewrite Z.add_mod_idemp_l by lia. replace (c - 1 + 1) with c by lia.
  by apply Z.mod_small.
Qed.

Lemma alter_alter_fixed {A} (f g : A → A) (l : list A) i d :
  l !! i = Some d → g (f d) = d → alter g i (alter f i l) = l.
Proof.
  intros Hd Hgf. apply list_eq. intros j. destruct (decide (i = j)) as [<-|Hne].
  - rewrite !list_lookup_alter_eq, Hd. simpl. by rewrite Hgf.
  - by rewrite !list_lookup_alter_ne.
Qed.

Lemma decr_then_incr a s :
  unsigned_counts s → a ∈ addresses s →
  ∃ s1 i, through (findPtrInfo a s) decr s = Some s1 ∧
          findPtrInfo a s1 = Some i ∧
          through (findPtrInfo a s1) incr s1 = Some s ∧
          set_refContainer (alter incr i (refContainer s1)) s1 = s.
Proof.
  intros Hu Hreg. destruct (through_registered a decr s Hreg) as [s1 H1].
  pose proof (through_addresses _ _ _ _ memPtr_decr H1) as Ha.
  pose proof H1 as (i & d & Hi & Hd & _ & ->)%through_findPtrInfo.
  assert (set_refContainer
            (alter incr i (refContainer (set_refContainer (alter decr i (refContainer s)) s)))
            (set_refContainer (alter decr i (refContainer s)) s) = s) as Hback.
  { destruct s as [l f h r]. unfold set_refContainer. simpl in *. f_equal.
    apply (alter_alter_fixed _ _ _ _ d Hd), incr_decr.
    by apply (Forall_lookup_1 _ _ _ _ Hu Hd). }
  eexists _, i. split; [done|].
  assert (findPtrInfo a (set_refContainer (alter decr i (refContainer s)) s) = Some i) as Hi'
    by (by rewrite (findPtrInfo_addresses a _ _ Ha)).
  split_and!; [done| |done].
  unfold through at 1. rewrite Hi'. simpl.
  rewrite list_lookup_alter_eq, Hd. simpl. f_equal. exact Hback.
Qed.

(** X10: assigning a handle to itself, or assigning it the raw address it
    holds, changes nothing: the count is lowered and raised again, also
    when it is zero (it passes through [2^32 - 1]).  The address has an
    entry and the counts are [unsigned] values. *)
Theorem self_assignment_is_neutral (N junk : Z) (this : Pointer) (s : Statics) :
  unsigned_counts s →
  addr this ∈ addresses s →
  assign_ptr this this s = Some (this, s) ∧
  assign_raw N junk this (addr this) s = Some (addr this, this, s).
Proof.
  intros Hu Hreg.
  destruct (decr_then_incr (addr this) s Hu Hreg) as (s1 & i & H1 & Hi & H2 & Hback).
  assert (set_addr (addr this) this = this) as Hsame by (by destruct this).
  split.
  - unfold assign_ptr. rewrite H1. simpl. rewrite H2. simpl. by rewrite Hsame.
  - unfold assign_raw. rewrite H1. simpl. rewrite Hi, Hback, Hsame. done.
Qed.

Lemma self_assignment_is_neutral_witness :
  let this := mkPointer 5 false 0 in
  let s := mkStatics [mkPtrDetails 2 5 false 0; mkPtrDetails 1 6 false 0] false 1 [] in
  assign_ptr this this s = Some (this, s) ∧
  assign_raw 0 0 this (addr this) s = Some (addr this, this, s).
Proof.
  apply (self_assignment_is_neutral 0 0 (mkPointer 5 false 0)
           (mkStatics [mkPtrDetails 2 5 false 0; mkPtrDetails 1 6 false 0] false 1 [])).
  - unfold unsigned_counts. simpl.
    do 2 (apply List.Forall_cons; [vm_compute; split; congruence|]). apply List.Forall_nil.
  - vm_compute. left.
Defined.

(** ** Disciplined runs *)

Lemma run_counted_boot N ops w :
  Z.of_nat (length ops) < UINT_MOD →
  disciplined N ops boot = true → run N ops boot = Some w → counted w.
Proof.
  intros Hlen Hd Hr. apply (run_counted N ops boot w); [|done..|apply counted_boot].
  simpl. rewrite map_size_empty. lia.
Qed.

(** X12: on such a run no copy and no destruction of a live handle goes
    through [end()]: whatever handle is alive at its end can be copied to
    a free location and can be destroyed. *)
Theorem disciplined_run_stays_defined
    (N : Z) (ops : list op) (w : World) (l src : nat) (obj : Pointer) :
  Z.of_nat (length ops) < UINT_MOD →
  disciplined N ops boot = true →
  run N ops boot = Some w →
  objects w !! src = Some obj →
  objects w !! l = None →
  is_Some (step N (NewCopy l src) w) ∧ is_Some (step N (Delete src) w).
Proof.
  intros Hlen Hd Hr Hsrc Hl.
  apply (counted_no_end N w l src obj); [|done..].
  by apply (run_counted_boot N ops).
Qed.

Lemma disciplined_run_stays_defined_witness :
  let w := {| statics := mkStatics [mkPtrDetails 2 5 false 0; mkPtrDetails 1 6 false 0]
                                   false 1 [mkRelease 7 false];
              objects := <[3%nat := mkPointer 6 false 0]>
                           (<[1%nat := mkPointer 5 false 0]>
                              {[ 0%nat := mkPointer 5 false 0 ]}) |} in
  is_Some (step 0 (NewCopy 4 1) w) ∧ is_Some (step 0 (Delete 1) w).
Proof.
  apply (disciplined_run_stays_defined 0
           [New 0 5; NewCopy 1 0; New 2 7; New 3 6; Delete 2]
           {| statics := mkStatics [mkPtrDetails 2 5 false 0; mkPtrDetails 1 6 false 0]
                                   false 1 [mkRelease 7 false];
              objects := <[3%nat := mkPointer 6 false 0]>
                           (<[1%nat := mkPointer 5 false 0]>
                              {[ 0%nat := mkPointer 5 false 0 ]}) |}
           4 1 (mkPointer 5 false 0)).
  - vm_compute. reflexivity.
  - vm_compute. reflexivity.
  - vm_compute. reflexivity.
  - vm_compute. reflexivity.
  - vm_compute. reflexivity.
Defined.

Lemma holders_held a m :
  (0 < holders a m)%nat → ∃ l h, m !! l = Some h ∧ addr h = a.
Proof.
  unfold holders. intros Hpos.
  destruct (map_choose (filter (λ lp : nat * Pointer, addr lp.2 = a) m)) as (l & h & Hl).
  { intros Hempty. rewrite Hempty, map_size_empty in Hpos. lia. }
  apply map_lookup_filter_Some in Hl as [Hl Ha]. eauto.
Qed.

(** X13: on such a run the registry holds exactly the addresses that live
    handles hold, one entry each: nothing that is still referenced has
    been removed and nothing unreferenced is left.  When the run ends with
    no live handle the registry is empty. *)
Theorem registry_is_the_live_addresses (N : Z) (ops : list op) (w : World) :
  Z.of_nat (length ops) < UINT_MOD →
  disciplined N ops boot = true →
  run N ops boot = Some w →
  NoDup (addresses (statics w)) ∧
  (∀ a, a ∈ addresses (statics w) ↔ ∃ l h, objects w !! l = Some h ∧ addr h = a) ∧
  (objects w = ∅ → refContainer (statics w) = []).
Proof.
  intros Hlen Hd Hr.
  destruct (run_counted_boot N ops w Hlen Hd Hr) as [Hnd Hent Hobj].
  assert (∀ a, a ∈ addresses (statics w) → ∃ l h, objects w !! l = Some h ∧ addr h = a)
    as Hheld.
  { intros a (d & -> & Hdin)%list_elem_of_fmap.
    destruct (Hent d Hdin) as [Hcount Hpos]. rewrite live_handles_holders in Hcount.
    apply holders_held. lia. }
  split_and!; [done| |].
  - intros a. split; [apply Hheld|]. intros (l & h & Hl & <-). by eapply Hobj.
  - intros Hempty. destruct (refContainer (statics w)) as [|d rest] eqn:E; [done|].
    destruct (Hheld (memPtr d)) as (l & h & Hl & _).
    { unfold addresses. rewrite E. by left. }
    by rewrite Hempty, lookup_empty in Hl.
Qed.

Lemma registry_is_the_live_addresses_witness :
  let w := {| statics := mkStatics [] false 1 [mkRelease 7 false; mkRelease 5 false];
              objects := ∅ |} in
  NoDup (addresses (statics w)) ∧
  (∀ a, a ∈ addresses (statics w) ↔ ∃ l h, objects w !! l = Some h ∧ addr h = a) ∧
  (objects w = ∅ → refContainer (statics w) = []).
Proof.
  apply (registry_is_the_live_addresses 0
           [New 0 5; NewCopy 1 0; New 2 7; Delete 2; Delete 0; Delete 1]
           {| statics := mkStatics [] false 1 [mkRelease 7 false; mkRelease 5 false];
              objects := ∅ |}).
  - vm_compute. reflexivity.
  - vm_compute. reflexivity.
  - vm_compute. reflexivity.
Defined.

(** ** The form of the releases *)

Lemma keeps_shape_incr : keeps_shape incr.
Proof. done. Qed.

Lemma keeps_shape_decr : keeps_shape decr.
Proof. done. Qed.

Lemma keeps_shape_unref :
  keeps_shape (λ d, if decide (refCount d ≠ 0) then decr d else d).
Proof. intros d. by case_decide. Qed.

Lemma shaped_through N a f s s' :
  keeps_shape f → through (findPtrInfo a s) f s = Some s' → shaped N s → shaped N s'.
Proof.
  intros Hf (i & d & _ & _ & _ & ->)%through_findPtrInfo [He Hr]. split; [|done].
  simpl. apply Forall_alter; [done|]. intros e _ [? ?].
  destruct (Hf e) as [-> ->]. done.
Qed.

Lemma shaped_collect_loop N b s : shaped N s → shaped N (snd (collect_loop b s)).
Proof.
  apply (collect_loop_rounds (λ _ s r, shaped N s → shaped N r.2)); [done|].
  intros _ s' p [Hp _]%first_unreferenced_Some IH [He Hr]. apply IH.
  rewrite Forall_forall in He. split; cbn [collect_next refContainer released].
  - apply Forall_forall. intros d [Hd _]%list_remove_elem. by apply He.
  - rewrite release_log. apply Forall_app. split; [done|].
    destruct (decide (memPtr p = nullptr)); [constructor|].
    apply Forall_singleton. simpl. by apply He.
Qed.

Lemma shaped_ctor N t s : shaped N s → shaped N (snd (Pointer_ctor N t s)).
Proof.
  intros [He Hr]. split; [|done]. simpl.
  apply Forall_app. split; [done|]. by apply Forall_singleton.
Qed.

Lemma shaped_dtor N this s s' : Pointer_dtor this s = Some s' → shaped N s → shaped N s'.
Proof.
  intros (mid & Hmid & _ & ->)%Pointer_dtor_releases Hs.
  apply shaped_collect_loop. unfold Pointer_dtor_unref in Hmid.
  eapply shaped_through; [apply keeps_shape_unref|exact Hmid|done].
Qed.

Lemma shaped_shutdown N s : shaped N s → shaped N (shutdown s).
Proof.
  intros Hs. unfold shutdown. case_decide; [done|]. destruct Hs as [He Hr].
  apply shaped_collect_loop. split; [|done]. simpl.
  apply Forall_fmap. eapply Forall_impl; [exact He|]. done.
Qed.

Lemma step_shaped N o w w' :
  assigns_raw o = false → step N o w = Some w' →
  shaped N (statics w) → shaped N (statics w').
Proof.
  intros Ho H%step_statics Hs.
  destruct o as [l t|l uninit|l src|l|junk l t|l r| |]; try done.
  - rewrite H. by apply shaped_ctor.
  - destruct H as (this & H). unfold Pointer_default in H.
    destruct (Pointer_ctor N nullptr (statics w)) as [temporary s1] eqn:Hc.
    destruct (Pointer_dtor temporary s1) as [s2|] eqn:Hd; [|done].
    simpl in H. injection H as _ <-.
    eapply shaped_dtor; [exact Hd|].
    replace s1 with (snd (Pointer_ctor N nullptr (statics w))) by by rewrite Hc.
    by apply shaped_ctor.
  - destruct H as (obj & c & H). unfold Pointer_copy in H.
    destruct (through _ _ (statics w)) as [s1|] eqn:H1; [|done].
    simpl in H. injection H as _ <-.
    eapply shaped_through; [apply keeps_shape_incr|exact H1|done].
  - destruct H as (this & H). by eapply shaped_dtor.
  - destruct H as (this & rv & this' & H).
    apply assign_ptr_inv in H as (_ & s1 & H1 & H2).
    eapply shaped_through; [apply keeps_shape_incr|exact H2|].
    eapply shaped_through; [apply keeps_shape_decr|exact H1|done].
  - rewrite H. by apply shaped_collect_loop.
  - rewrite H. by apply shaped_shutdown.
Qed.

Lemma run_shaped N ops w w' :
  existsb assigns_raw ops = false → run N ops w = Some w' →
  shaped N (statics w) → shaped N (statics w').
Proof.
  revert w. induction ops as [|o ops IH]; intros w Ho Hr Hw; simpl in *.
  - by injection Hr as <-.
  - destruct (step N o w) as [w1|] eqn:Hstep; [|done]. simpl in Hr.
    apply orb_false_iff in Ho as [Ho Hops].
    eapply IH; [done|exact Hr|]. by eapply step_shaped.
Qed.

(** X14: in a run from program start that never assigns a raw address,
    every entry carries the [isArray] and [arraySize] of the
    instantiation, and every release has the matching form: [delete[]]
    when the template argument is not zero ([arraySize > 0]) and [delete]
    when it is zero. *)
Theorem releases_match_instantiation (N : Z) (ops : list op) (w : World) :
  existsb assigns_raw ops = false →
  run N ops boot = Some w →
  (∀ d, d ∈ refContainer (statics w) →
        isArray d = bool_decide (to_unsigned N > 0) ∧ arraySize d = to_unsigned N) ∧
  (∀ r, r ∈ released (statics w) → rel_array r = bool_decide (to_unsigned N > 0)).
Proof.
  intros Ho Hr.
  destruct (run_shaped N ops boot w Ho Hr) as [He Hrel].
  { split; constructor. }
  rewrite Forall_forall in He. rewrite Forall_forall in Hrel. done.
Qed.

Lemma releases_match_instantiation_witness :
  let w := {| statics := mkStatics [mkPtrDetails 1 6 true 3] false 1
                                   [mkRelease 7 true; mkRelease 5 true];
              objects := {[ 3%nat := mkPointer 6 true 3 ]} |} in
  (∀ d, d ∈ refContainer (statics w) →
        isArray d = bool_decide (to_unsigned 3 > 0) ∧ arraySize d = to_unsigned 3) ∧
  (∀ r, r ∈ released (statics w) → rel_array r = bool_decide (to_unsigned 3 > 0)).
Proof.
  apply (releases_match_instantiation 3
           [New 0 5; NewCopy 1 0; New 2 7; New 3 6; Assign 2 3; Delete 2; Delete 0;
            Collect; Delete 1]
           {| statics := mkStatics [mkPtrDetails 1 6 true 3] false 1
                                   [mkRelease 7 true; mkRelease 5 true];
              objects := {[ 3%nat := mkPointer 6 true 3 ]} |}).
  - vm_compute. reflexivity.
  - vm_compute. reflexivity.
Defined.

(** ** Indexing, conversion and the iterator range *)

Lemma to_unsigned_zero_int N : is_int N → to_unsigned N = 0 → N = 0.
Proof.
  unfold is_int, INT_MIN, INT_MAX, to_unsigned, UINT_MOD. intros HN Hz.
  apply Z.mod_divide in Hz as [k Hk]; lia.
Qed.

(** The length [begin()] and [end()] compute for a constructed handle. *)
Lemma Pointer_ctor_length N t s :
  is_int N →
  (if ptr_isArray (fst (Pointer_ctor N t s))
   then to_int (ptr_arraySize (fst (Pointer_ctor N t s))) else 0) = N.
Proof.
  intros Hint. simpl. case_bool_decide as Hpos.
  - by apply to_unsigned_int_roundtrip.
  - symmetry. apply to_unsigned_zero_int; [done|].
    pose proof (to_unsigned_range N) as Hr. unfold is_unsigned in Hr. lia.
Qed.

(** X15: [operator[]] adds its index to the address and checks nothing,
    [operator*], [operator->] and the conversion to [T*] give the address
    itself.  For a handle constructed from [t] with length [N], [p[i]] lies
    in the range [begin()] and [end()] carry exactly when [0 <= i < N],
    [p[0]] is what [*p] names, and [p[N]] is where [end()] stands. *)
Theorem index_within_range (N t i : Z) (s : Statics) :
  0 <= N <= INT_MAX →
  let this := fst (Pointer_ctor N t s) in
  (range_begin (Pointer_begin this) <= Pointer_index this i
     < range_end (Pointer_begin this) ↔ 0 <= i < N) ∧
  Pointer_index this 0 = Pointer_deref this ∧
  Pointer_index this N = current (Pointer_end this) ∧
  Pointer_deref this = t ∧ Pointer_arrow this = t ∧ Pointer_to_raw this = t.
Proof.
  intros HN this.
  assert (is_int N) as Hint by (unfold is_int, INT_MIN, INT_MAX in *; lia).
  pose proof (Pointer_ctor_length N t s Hint) as Hsz. fold this in Hsz.
  assert (addr this = t) as Ha by done.
  unfold Pointer_index, Pointer_deref, Pointer_arrow, Pointer_to_raw,
    Pointer_begin, Pointer_end.
  rewrite Hsz, Ha. simpl. split_and!; try done; lia.
Qed.

Lemma index_within_range_witness :
  let this := fst (Pointer_ctor 5 100 startup) in
  (range_begin (Pointer_begin this) <= Pointer_index this 4
     < range_end (Pointer_begin this) ↔ 0 <= 4 < 5) ∧
  Pointer_index this 0 = Pointer_deref this ∧
  Pointer_index this 5 = current (Pointer_end this) ∧
  Pointer_deref this = 100 ∧ Pointer_arrow this = 100 ∧ Pointer_to_raw this = 100.
Proof.
  apply (index_within_range 5 100 4 startup). vm_compute. split; discriminate.
Defined.

(** X16: the template argument is an [int], and a negative one is taken
    for an array length too: the handle is marked as an array whenever
    [N] is not zero, [end() - begin()] is [N] for every [int] [N], and for
    a negative [N] [end()] stands before [begin()]. *)
Theorem begin_end_for_any_int (N t : Z) (s : Statics) :
  is_int N →
  let this := fst (Pointer_ctor N t s) in
  ptr_isArray this = bool_decide (N ≠ 0) ∧
  Iter_distance (Pointer_begin this) (Pointer_end this) = N ∧
  (N < 0 → current (Pointer_end this) < current (Pointer_begin this)).
Proof.
  intros Hint this.
  pose proof (Pointer_ctor_length N t s Hint) as Hsz. fold this in Hsz.
  split_and!.
  - subst this. simpl. apply bool_decide_ext.
    pose proof (to_unsigned_range N) as Hr. unfold is_unsigned in Hr. split.
    + intros Hpos ->. change (to_unsigned 0) with 0 in Hpos. lia.
    + intros Hne. destruct (decide (to_unsigned N = 0)) as [Hz|Hz]; [|lia].
      by apply to_unsigned_zero_int in Hz.
  - unfold Iter_distance, Pointer_begin, Pointer_end. rewrite Hsz. simpl. lia.
  - unfold Pointer_begin, Pointer_end. rewrite Hsz. simpl. lia.
Qed.

Lemma begin_end_for_any_int_witness :
  let this := fst (Pointer_ctor (-2) 100 startup) in
  ptr_isArray this = bool_decide (-2 ≠ 0) ∧
  Iter_distance (Pointer_begin this) (Pointer_end this) = -2 ∧
  (-2 < 0 → current (Pointer_end this) < current (Pointer_begin this)).
Proof.
  apply (begin_end_for_any_int (-2) 100 startup). vm_compute. split; discriminate.
Defined.

(** ** Assignment between registered addresses *)

(** Lowering the count of [a] and raising the count of [b]. *)
Lemma move_reference a b s :
  a ∈ addresses s → b ∈ addresses s → a ≠ b →
  ∃ s1 s' n m,
    through (findPtrInfo a s) decr s = Some s1 ∧
    through (findPtrInfo b s1) incr s1 = Some s' ∧
    tracked_count a s = Some n ∧ tracked_count b s = Some m ∧
    tracked_count a s' = Some (to_unsigned (n - 1)) ∧
    tracked_count b s' = Some (to_unsigned (m + 1)) ∧
    (∀ c, c ≠ a → c ≠ b → tracked_count c s' = tracked_count c s) ∧
    addresses s' = addresses s ∧ released s' = released s.
Proof.
  intros Ha Hb Hab.
  destruct (through_registered a decr s Ha) as [s1 H1].
  pose proof (through_addresses _ _ _ _ memPtr_decr H1) as Ha1.
  assert (b ∈ addresses s1) as Hb1 by by rewrite Ha1.
  destruct (through_registered b incr s1 Hb1) as [s' H2].
  pose proof (through_addresses _ _ _ _ memPtr_incr H2) as Ha2.
  destruct (through_tracked_same _ _ _ _ memPtr_decr H1) as (d & _ & _ & Hn & Hn1).
  destruct (through_tracked_same _ _ _ _ memPtr_incr H2) as (e & _ & _ & Hm1 & Hm').
  pose proof (through_tracked_other a b decr s s1 memPtr_decr Hab H1) as Hb_s1.
  assert (b ≠ a) as Hba by congruence.
  pose proof (through_tracked_other b a incr s1 s' memPtr_incr Hba H2) as Ha_s'.
  exists s1, s', (refCount d), (refCount e). split_and!; try done.
  - by rewrite <- Hb_s1.
  - by rewrite Ha_s'.
  - intros c Hca Hcb.
    rewrite (through_tracked_other b c incr s1 s') by auto with registry.
    by apply (through_tracked_other a c decr s s1); auto with registry.
  - by rewrite Ha2.
  - apply through_frame in H1 as (<- & _). by apply through_frame in H2 as (-> & _).
Qed.

(** X17: [l = r] for two handles whose addresses have entries and differ.
    The assignment is defined, the left handle takes the address and
    keeps its own [isArray] and [arraySize], the count of the old address
    goes down by one and that of the new one up by one (modulo [2^32]),
    and nothing else changes: no entry is pushed or removed, nothing is
    released. *)
Theorem assign_ptr_moves_one_reference (this rv : Pointer) (s : Statics) :
  addr this ∈ addresses s → addr rv ∈ addresses s → addr this ≠ addr rv →
  ∃ s' n m,
    assign_ptr this rv s
    = Some ({| addr := addr rv; ptr_isArray := ptr_isArray this;
               ptr_arraySize := ptr_arraySize this |}, s') ∧
    tracked_count (addr this) s = Some n ∧ tracked_count (addr rv) s = Some m ∧
    tracked_count (addr this) s' = Some (to_unsigned (n - 1)) ∧
    tracked_count (addr rv) s' = Some (to_unsigned (m + 1)) ∧
    (∀ c, c ≠ addr this → c ≠ addr rv → tracked_count c s' = tracked_count c s) ∧
    addresses s' = addresses s ∧ released s' = released s.
Proof.
  intros Ha Hb Hab.
  destruct (move_reference _ _ s Ha Hb Hab) as (s1 & s' & n & m & H1 & H2 & Hrest).
  exists s', n, m. split; [|exact Hrest].
  unfold assign_ptr. rewrite H1. simpl. by rewrite H2.
Qed.

Lemma assign_ptr_moves_one_reference_witness :
  let this := mkPointer 5 false 0 in
  let rv := mkPointer 6 false 0 in
  let s := mkStatics [mkPtrDetails 2 5 false 0; mkPtrDetails 1 6 false 0] false 1 [] in
  ∃ s' n m,
    assign_ptr this rv s
    = Some ({| addr := addr rv; ptr_isArray := ptr_isArray this;
               ptr_arraySize := ptr_arraySize this |}, s') ∧
    tracked_count (addr this) s = Some n ∧ tracked_count (addr rv) s = Some m ∧
    tracked_count (addr this) s' = Some (to_unsigned (n - 1)) ∧
    tracked_count (addr rv) s' = Some (to_unsigned (m + 1)) ∧
    (∀ c, c ≠ addr this → c ≠ addr rv → tracked_count c s' = tracked_count c s) ∧
    addresses s' = addresses s ∧ released s' = released s.
Proof.
  apply (assign_ptr_moves_one_reference (mkPointer 5 false 0) (mkPointer 6 false 0)
           (mkStatics [mkPtrDetails 2 5 false 0; mkPtrDetails 1 6 false 0] false 1 [])).
  - vm_compute. left.
  - vm_compute. right. left.
  - vm_compute. discriminate.
Defined.

(** X18: [p = t] for a raw address [t] that already has an entry shares
    that entry: the assignment returns [t], pushes nothing, lowers the
    count of the old address by one and raises that of [t] by one
    (modulo [2^32]); the other counts and the release log stay. *)
Theorem assign_raw_shares_entry (N junk : Z) (this : Pointer) (t : Z) (s : Statics) :
  addr this ∈ addresses s → t ∈ addresses s → addr this ≠ t →
  ∃ s' n m,
    assign_raw N junk this t s = Some (t, set_addr t this, s') ∧
    tracked_count (addr this) s = Some n ∧ tracked_count t s = Some m ∧
    tracked_count (addr this) s' = Some (to_unsigned (n - 1)) ∧
    tracked_count t s' = Some (to_unsigned (m + 1)) ∧
    (∀ c, c ≠ addr this → c ≠ t → tracked_count c s' = tracked_count c s) ∧
    addresses s' = addresses s ∧ released s' = released s.
Proof.
  intros Ha Hb Hab.
  destruct (move_reference _ _ s Ha Hb Hab) as (s1 & s' & n & m & H1 & H2 & Hrest).
  exists s', n, m. split; [|exact Hrest].
  unfold assign_raw. rewrite H1. simpl.
  apply through_findPtrInfo in H2 as (i & d & -> & _ & _ & ->). done.
Qed.

Lemma assign_raw_shares_entry_witness :
  let this := mkPointer 5 false 0 in
  let s := mkStatics [mkPtrDetails 2 5 false 0; mkPtrDetails 1 6 false 0] false 1 [] in
  ∃ s' n m,
    assign_raw 0 0 this 6 s = Some (6, set_addr 6 this, s') ∧
    tracked_count (addr this) s = Some n ∧ tracked_count 6 s = Some m ∧
    tracked_count (addr this) s' = Some (to_unsigned (n - 1)) ∧
    tracked_count 6 s' = Some (to_unsigned (m + 1)) ∧
    (∀ c, c ≠ addr this → c ≠ 6 → tracked_count c s' = tracked_count c s) ∧
    addresses s' = addresses s ∧ released s' = released s.
Proof.
  apply (assign_raw_shares_entry 0 0 (mkPointer 5 false 0) 6
           (mkStatics [mkPtrDetails 2 5 false 0; mkPtrDetails 1 6 false 0] false 1 [])).
  - vm_compute. left.
  - vm_compute. right. left.
  - vm_compute. discriminate.
Defined.

(** ** Default construction on a settled registry *)

Lemma list_remove_snoc_null l e :
  memPtr e = nullptr → nullptr ∉ memPtr <$> l → list_remove e (l ++ [e]) = l.
Proof.
  intros He Hl. unfold list_remove. rewrite filter_app.
  rewrite filter_keeps_all.
  - rewrite filter_cons, decide_False; [by rewrite app_nil_r|].
    unfold PtrDetails_eq. tauto.
  - apply Forall_forall. intros d Hd Heq. apply Hl.
    apply list_elem_of_fmap. exists d. split; [|done].
    unfold PtrDetails_eq in Heq. congruence.
Qed.

Lemma first_unreferenced_snoc l e :
  Forall (λ d, refCount d > 0) l → ¬ (refCount e > 0) →
  first_unreferenced (l ++ [e]) = Some e.
Proof.
  intros Hl He. unfold first_unreferenced.
  rewrite list_find_app_r.
  - simpl. by rewrite decide_True.
  - apply list_find_None. eapply Forall_impl; [exact Hl|]. intros d Hd. tauto.
Qed.

(** X19: on a registry with no entry for null and no count of zero,
    [Pointer()] leaves the registry and the release log as they are: the
    entry its temporary pushes for null is the one its destructor finds,
    lowers to zero and collects.  The constructed object keeps the members
    its storage held; [first] is cleared and the exit hook registered as
    by any construction. *)
Theorem default_ctor_keeps_registry (N : Z) (uninit : Pointer) (s : Statics) :
  nullptr ∉ addresses s →
  Forall (λ d, refCount d > 0) (refContainer s) →
  Pointer_default N uninit s =
  Some (uninit,
        {| refContainer := refContainer s;
           first := false;
           exit_hooks := if first s then S (exit_hooks s) else exit_hooks s;
           released := released s |}).
Proof.
  intros Hnull Hpos. unfold Pointer_default.
  destruct (Pointer_ctor N nullptr s) as [temporary s1] eqn:Hc.
  set (e1 := {| refCount := 1; memPtr := nullptr;
                isArray := bool_decide (to_unsigned N > 0);
                arraySize := to_unsigned N |}).
  set (e0 := {| refCount := 0; memPtr := nullptr;
                isArray := bool_decide (to_unsigned N > 0);
                arraySize := to_unsigned N |}).
  set (hooks := if first s then S (exit_hooks s) else exit_hooks s).
  assert (temporary = {| addr := nullptr; ptr_isArray := bool_decide (to_unsigned N > 0);
                         ptr_arraySize := to_unsigned N |} ∧
          s1 = mkStatics (refContainer s ++ [e1]) false hooks (released s)) as [-> ->].
  { by injection Hc as <- <-. }
  clear Hc.
  set (s1 := mkStatics (refContainer s ++ [e1]) false hooks (released s)).
  set (mid := mkStatics (refContainer s ++ [e0]) false hooks (released s)).
  assert (findPtrInfo nullptr s1 = Some (length (refContainer s))) as Hfind.
  { apply findPtrInfo_Some. exists e1. split_and!; [by apply list_lookup_middle|done|].
    intros j e Hj Hlt Hen. apply Hnull.
    cbn [s1 refContainer] in Hj. rewrite lookup_app_l in Hj by done.
    apply list_elem_of_fmap. exists e. split; [done|]. by eapply list_elem_of_lookup_2. }
  assert (Pointer_dtor_unref
            {| addr := nullptr; ptr_isArray := bool_decide (to_unsigned N > 0);
               ptr_arraySize := to_unsigned N |} s1 = Some mid) as Hunref.
  { unfold Pointer_dtor_unref, through. cbn [addr]. rewrite Hfind.
    cbn [mbind option_bind s1 refContainer].
    rewrite (list_lookup_middle _ [] e1 _ eq_refl). cbn [mbind option_bind].
    replace (length (refContainer s)) with (length (refContainer s) + 0)%nat at 1 by lia.
    rewrite alter_app_r. reflexivity. }
  unfold Pointer_dtor. rewrite Hunref. cbn [mbind option_bind].
  rewrite (collect_single e0 mid).
  - cbn [snd]. unfold collect_next. cbn [mid refContainer first exit_hooks released].
    rewrite list_remove_snoc_null by done. reflexivity.
  - cbn [mid refContainer]. apply first_unreferenced_snoc; [done|]. simpl. lia.
  - cbn [mid refContainer]. by rewrite list_remove_snoc_null.
Qed.

Lemma default_ctor_keeps_registry_witness :
  let s := mkStatics [mkPtrDetails 2 5 false 0; mkPtrDetails 1 6 false 0] true 0
                     [mkRelease 7 false] in
  Pointer_default 0 (mkPointer 9 true 4) s =
  Some (mkPointer 9 true 4,
        {| refContainer := refContainer s;
           first := false;
           exit_hooks := if first s then S (exit_hooks s) else exit_hooks s;
           released := released s |}).
Proof.
  apply (default_ctor_keeps_registry 0 (mkPointer 9 true 4)
           (mkStatics [mkPtrDetails 2 5 false 0; mkPtrDetails 1 6 false 0] true 0
                      [mkRelease 7 false])).
  - vm_compute. intros [H|[H|H]%elem_of_cons]%elem_of_cons;
      [discriminate H | discriminate H | by apply elem_of_nil in H].
  - simpl. do 2 (apply List.Forall_cons; [reflexivity|]). apply List.Forall_nil.
Defined.

(** ** The last handle *)

(** What the destructor's [collect()] does under the invariant of the
    counts: one round for the entry of the destroyed handle's address when
    no other handle holds it, nothing otherwise. *)
Lemma counted_delete_collects l w this mid :
  Z.of_nat (base.size (objects w)) < UINT_MOD →
  counted w → objects w !! l = Some this →
  Pointer_dtor_unref this (statics w) = Some mid →
  if decide (holders (addr this) (delete l (objects w)) = 0%nat)
  then ∃ p, memPtr p = addr this ∧ collect mid = (true, collect_next p mid)
  else collect mid = (false, mid).
Proof.
  intros Hsize [Hnd Hent Hobj] Hl Hmid. unfold Pointer_dtor_unref in Hmid.
  set (a := addr this) in *. set (m' := delete l (objects w)).
  assert (holders a (objects w) = S (holders a m')) as Hk.
  { rewrite (holders_delete a _ l this Hl), decide_True by done. subst m'. lia. }
  assert (∀ e, e ∈ refContainer mid →
               refCount e = Z.of_nat (holders (memPtr e) m') ∧
               (memPtr e ≠ a → 0 < refCount e)) as Hmident.
  { intros e He.
    destruct (through_entries _ _ _ _ Hnd memPtr_unref Hmid e He)
      as [(d & Hdin & Hda & ->)|[Hein Hne]].
    - destruct (Hent d Hdin) as [Hcount Hpos]. rewrite live_handles_holders, Hda, Hk in Hcount.
      rewrite decide_True by lia. rewrite memPtr_decr, Hda. split; [|done].
      cbn [decr set_refCount refCount]. rewrite Hcount.
      pose proof (holders_bound a (objects w)) as Hb.
      rewrite to_unsigned_small; [lia|]. unfold is_unsigned. lia.
    - destruct (Hent e Hein) as [Hcount Hpos]. rewrite live_handles_holders in Hcount.
      rewrite (holders_delete _ _ l this Hl), decide_False in Hcount by (fold a; congruence).
      rewrite Nat.add_0_r in Hcount. done. }
  destruct (decide (holders a m' = 0)%nat) as [Hzero|Hpos].
  - destruct (first_unreferenced (refContainer mid)) as [p|] eqn:Hp.
    + pose proof Hp as [Hpin Hple]%first_unreferenced_Some.
      assert (memPtr p = a) as Hpa.
      { destruct (decide (memPtr p = a)) as [|Hne]; [done|].
        destruct (Hmident p Hpin) as [_ Hpp]. specialize (Hpp Hne). lia. }
      exists p. split; [done|]. apply collect_single; [done|].
      apply Forall_forall. intros e [Hein Hne]%list_remove_elem.
      destruct (Hmident e Hein) as [_ Hpp]. rewrite Hpa in Hne.
      specialize (Hpp Hne). lia.
    + apply first_unreferenced_None in Hp. rewrite Forall_forall in Hp.
      destruct (through_tracked_same _ _ _ _ memPtr_unref Hmid) as (d & _ & _ & _ & Hafter).
      apply tracked_count_Some in Hafter as (e & Hein & Hea & _).
      destruct (Hmident e Hein) as [Hcount _]. specialize (Hp e Hein).
      rewrite Hea, Hzero in Hcount. lia.
  - apply collect_nothing_to_do, Forall_forall. intros e Hein.
    destruct (Hmident e Hein) as [Hcount Hpp].
    destruct (decide (memPtr e = a)) as [Hea|Hne]; [rewrite Hea in Hcount; lia|].
    specialize (Hpp Hne). lia.
Qed.

(** X20: on a disciplined run, destroying a handle releases its address
    exactly when it is the last handle on it.  If other handles hold the
    address nothing is released and the count goes down by one; if it is
    the last one the entry is removed and the address, unless it is null,
    is the one release the destructor adds. *)
Theorem last_handle_releases
    (N : Z) (ops : list op) (w w' : World) (l : nat) (this : Pointer) :
  Z.of_nat (length ops) < UINT_MOD →
  disciplined N ops boot = true →
  run N ops boot = Some w →
  objects w !! l = Some this →
  step N (Delete l) w = Some w' →
  ((1 < live_handles (addr this) w)%nat →
   released (statics w') = released (statics w) ∧
   tracked_count (addr this) (statics w')
   = Some (Z.of_nat (live_handles (addr this) w) - 1)) ∧
  (live_handles (addr this) w = 1%nat →
   (addr this ∉ addresses (statics w')) ∧
   released_addresses (statics w')
   = released_addresses (statics w)
     ++ (if decide (addr this = nullptr) then [] else [addr this])).
Proof.
  intros Hlen Hd Hr Hl Hstep.
  pose proof (run_counted_boot N ops w Hlen Hd Hr) as Hw.
  assert (Z.of_nat (base.size (objects w)) < UINT_MOD) as Hsize.
  { assert (∀ ops0 w0 w1, run N ops0 w0 = Some w1 →
              (base.size (objects w1) <= base.size (objects w0) + length ops0)%nat) as Hgrow.
    { induction ops0 as [|o ops0 IH]; intros w0 w1 Hrun; simpl in *.
      - injection Hrun as <-. lia.
      - destruct (step N o w0) as [w2|] eqn:Hs2; [|done]. simpl in Hrun.
        pose proof (step_objects_size _ _ _ _ Hs2). specialize (IH _ _ Hrun). lia. }
    specialize (Hgrow _ _ _ Hr). simpl in Hgrow. rewrite map_size_empty in Hgrow. lia. }
  pose proof (counted_delete N l w w' Hsize Hstep Hw) as Hw'.
  simpl in Hstep. rewrite Hl in Hstep. simpl in Hstep.
  destruct (Pointer_dtor this (statics w)) as [s'|] eqn:Hdtor; [|done].
  injection Hstep as <-.
  apply Pointer_dtor_releases in Hdtor as (mid & Hmid & Hrel & ->).
  pose proof (counted_delete_collects l w this mid Hsize Hw Hl Hmid) as Hcollect.
  assert (live_handles (addr this) w
          = S (holders (addr this) (delete l (objects w)))) as Hlive.
  { rewrite live_handles_holders, (holders_delete _ _ l this Hl), decide_True by done. lia. }
  pose proof (through_addresses _ _ _ _ memPtr_unref Hmid) as Haddr.
  destruct Hw as [_ _ Hobj]. destruct Hw' as [_ Hent' _]. cbn [statics objects] in *.
  split.
  - intros Hmany. rewrite decide_False in Hcollect by lia. rewrite Hcollect in *.
    cbn [snd] in *. split; [done|].
    destruct (tracked_count_registered (addr this) mid) as [n Hn].
    { rewrite Haddr. by eapply Hobj. }
    rewrite Hn. f_equal.
    apply tracked_count_Some in Hn as (d & Hdin & Hda & <-).
    destruct (Hent' d Hdin) as [Hcount _].
    rewrite live_handles_holders, Hda in Hcount. cbn [objects] in Hcount. lia.
  - intros Hone. rewrite decide_True in Hcollect by lia.
    destruct Hcollect as (p & Hpa & Hcollect). rewrite Hcollect. cbn [snd]. split.
    + intros (e & He & [_ Hne]%list_remove_elem)%list_elem_of_fmap. congruence.
    + unfold released_addresses. cbn [collect_next released].
      rewrite release_log, fmap_app, Hrel, Hpa. by case_decide.
Qed.

Lemma last_handle_releases_witness :
  let w := {| statics := mkStatics [mkPtrDetails 2 5 false 0; mkPtrDetails 1 6 false 0]
                                   false 1 [];
              objects := <[2%nat := mkPointer 6 false 0]>
                           (<[1%nat := mkPointer 5 false 0]>
                              {[ 0%nat := mkPointer 5 false 0 ]}) |} in
  let w' := {| statics := mkStatics [mkPtrDetails 2 5 false 0] false 1 [mkRelease 6 false];
               objects := <[1%nat := mkPointer 5 false 0]>
                            {[ 0%nat := mkPointer 5 false 0 ]} |} in
  let this := mkPointer 6 false 0 in
  ((1 < live_handles (addr this) w)%nat →
   released (statics w') = released (statics w) ∧
   tracked_count (addr this) (statics w')
   = Some (Z.of_nat (live_handles (addr this) w) - 1)) ∧
  (live_handles (addr this) w = 1%nat →
   (addr this ∉ addresses (statics w')) ∧
   released_addresses (statics w')
   = released_addresses (statics w)
     ++ (if decide (addr this = nullptr) then [] else [addr this])).
Proof.
  apply (last_handle_releases 0 [New 0 5; NewCopy 1 0; New 2 6]
           {| statics := mkStatics [mkPtrDetails 2 5 false 0; mkPtrDetails 1 6 false 0]
                                   false 1 [];
              objects := <[2%nat := mkPointer 6 false 0]>
                           (<[1%nat := mkPointer 5 false 0]>
                              {[ 0%nat := mkPointer 5 false 0 ]}) |}
           {| statics := mkStatics [mkPtrDetails 2 5 false 0] false 1 [mkRelease 6 false];
              objects := <[1%nat := mkPointer 5 false 0]>
                           {[ 0%nat := mkPointer 5 false 0 ]} |}
           2 (mkPointer 6 false 0)).
  - vm_compute. reflexivity.
  - vm_compute. reflexivity.
  - vm_compute. reflexivity.
  - vm_compute. reflexivity.
  - vm_compute. reflexivity.
Defined.
